(** * Event Horizon: the per-pixel black-hole shading kernel

  A shallow embedding of the WGSL fragment shader [BLACK_HOLE_SHADER]
  ([fs_main] and its helpers [hash], [noise], [fbm], [blackbody]) and
  the properties of the integrator, the disk shader and the colour ramp.

  Numbers: the shader computes in [f32].  The embedding is over the real
  numbers [R]: every arithmetic operator and builtin is read as the exact
  function it approximates, so the theorems are about the formulas and the
  control flow of the kernel, not about rounding. *)

From Stdlib Require Import Reals Lra Lia List Bool Factorial.
Import ListNotations.

Open Scope R_scope.

(** ** WGSL builtins and vectors *)

Module Wgsl.

Definition ltb (x y : R) : bool := if Rlt_dec x y then true else false.
Definition gtb (x y : R) : bool := ltb y x.

Infix "<?" := ltb (at level 70, no associativity) : R_scope.
Infix ">?" := gtb (at level 70, no associativity) : R_scope.

(** [clamp(e, low, high) = min(max(e, low), high)]. *)
Definition clamp (e low high : R) : R := Rmin (Rmax e low) high.

(** [mix(x, y, a) = x * (1 - a) + y * a]. *)
Definition mix (x y a : R) : R := x * (1 - a) + y * a.

(** [smoothstep(low, high, x)]: Hermite ramp of the clamped ratio. The
    shader also calls it with [low > high] (a falling ramp). *)
Definition smoothstep (low high x : R) : R :=
  let t := clamp ((x - low) / (high - low)) 0 1 in
  t * t * (3 - 2 * t).

Definition floor (x : R) : R := IZR (Int_part x).
Definition fract (x : R) : R := x - floor x.

(** [pow(x, y)] is [exp2(y * log2 x)]: defined for [x > 0], [0] at
    [x = 0] with [y > 0].  The kernel never raises a negative base; the
    model returns [0] there. *)
Definition pow (x y : R) : R := if Rlt_dec 0 x then Rpower x y else 0.

Definition atan2 (y x : R) : R :=
  if Rlt_dec 0 x then atan (y / x)
  else if Rlt_dec x 0 then
         (if Rle_dec 0 y then atan (y / x) + PI else atan (y / x) - PI)
  else if Rlt_dec 0 y then PI / 2
  else if Rlt_dec y 0 then - (PI / 2)
  else 0.

Record vec2 : Type := mk2 { x2 : R; y2 : R }.
Record vec3 : Type := mk3 { vx : R; vy : R; vz : R }.
Record vec4 : Type := mk4 { cr : R; cg : R; cb : R; ca : R }.

Definition splat2 (s : R) : vec2 := mk2 s s.
Definition add2 (a b : vec2) : vec2 := mk2 (x2 a + x2 b) (y2 a + y2 b).
Definition sub2 (a b : vec2) : vec2 := mk2 (x2 a - x2 b) (y2 a - y2 b).
Definition mul2 (a b : vec2) : vec2 := mk2 (x2 a * x2 b) (y2 a * y2 b).
Definition scale2 (a : vec2) (s : R) : vec2 := mk2 (x2 a * s) (y2 a * s).
Definition dot2 (a b : vec2) : R := x2 a * x2 b + y2 a * y2 b.
Definition floor2 (a : vec2) : vec2 := mk2 (floor (x2 a)) (floor (y2 a)).
Definition fract2 (a : vec2) : vec2 := mk2 (fract (x2 a)) (fract (y2 a)).

Definition splat3 (s : R) : vec3 := mk3 s s s.
Definition vadd (a b : vec3) : vec3 :=
  mk3 (vx a + vx b) (vy a + vy b) (vz a + vz b).
Definition vsub (a b : vec3) : vec3 :=
  mk3 (vx a - vx b) (vy a - vy b) (vz a - vz b).
Definition vscale (a : vec3) (s : R) : vec3 :=
  mk3 (vx a * s) (vy a * s) (vz a * s).
Definition vdiv (a : vec3) (s : R) : vec3 :=
  mk3 (vx a / s) (vy a / s) (vz a / s).
Definition vneg (a : vec3) : vec3 := mk3 (- vx a) (- vy a) (- vz a).
Definition dot (a b : vec3) : R := vx a * vx b + vy a * vy b + vz a * vz b.
Definition cross (a b : vec3) : vec3 :=
  mk3 (vy a * vz b - vz a * vy b)
      (vz a * vx b - vx a * vz b)
      (vx a * vy b - vy a * vx b).
Definition length (a : vec3) : R := sqrt (dot a a).
(** [normalize(a) = a / length(a)].  At the zero vector the WGSL builtin
    divides by zero and returns NaN components, while a quotient by zero is
    [0] over [R]: the model and the shader agree on [normalize] only away
    from the zero vector. *)
Definition normalize (a : vec3) : vec3 := vdiv a (length a).
Definition vmix (a b : vec3) (t : R) : vec3 :=
  mk3 (mix (vx a) (vx b) t) (mix (vy a) (vy b) t) (mix (vz a) (vz b) t).
Definition vmap (f : R -> R) (a : vec3) : vec3 :=
  mk3 (f (vx a)) (f (vy a)) (f (vz a)).

(** Componentwise order on colours. *)
Definition vle (a b : vec3) : Prop :=
  vx a <= vx b /\ vy a <= vy b /\ vz a <= vz b.

End Wgsl.

Import Wgsl.

(** ** The shader *)

Module Shader.

Record Uniforms : Type := mkUniforms {
  time : R;
  spin : R;
  disk_intensity : R;
  lensing_enabled : R;
  resolution : vec2;
  camera_pos : vec3;
  camera_dir : vec3;
  camera_up : vec3
}.

Definition set_spin (u : Uniforms) (s : R) : Uniforms :=
  mkUniforms (time u) s (disk_intensity u) (lensing_enabled u)
             (resolution u) (camera_pos u) (camera_dir u) (camera_up u).

(** *** Constants *)

Definition M : R := 1.0.
Definition RS : R := 2.0.

(** *** Noise functions *)

Definition hash (p : vec2) : R :=
  fract (sin (dot2 p (mk2 12.9898 78.233)) * 43758.5453).

Definition noise (x : vec2) : R :=
  let i := floor2 x in
  let f := fract2 x in
  let u := mul2 (mul2 f f) (sub2 (splat2 3.0) (scale2 f 2.0)) in
  mix (mix (hash (add2 i (mk2 0.0 0.0))) (hash (add2 i (mk2 1.0 0.0))) (x2 u))
      (mix (hash (add2 i (mk2 0.0 1.0))) (hash (add2 i (mk2 1.0 1.0))) (x2 u))
      (y2 u).

(** [rot * pp] for the column-major matrix
    [mat2x2f(cos 0.5, sin 0.5, -sin 0.5, cos 0.5)]. *)
Definition rot (pp : vec2) : vec2 :=
  mk2 (cos 0.5 * x2 pp + - sin 0.5 * y2 pp)
      (sin 0.5 * x2 pp + cos 0.5 * y2 pp).

(** The body of the octave loop of [fbm], run [n] times. *)
Fixpoint fbm_loop (n : nat) (v a : R) (pp : vec2) : R :=
  match n with
  | O => v
  | S k =>
      let v' := v + a * noise pp in
      let pp' := add2 (scale2 (rot pp) 2.0) (splat2 100.0) in
      fbm_loop k v' (a * 0.5) pp'
  end.

Definition fbm (p : vec2) : R := fbm_loop 5 0.0 0.5 p.

(** *** Physics helpers *)

Definition blackbody (temp : R) : vec3 :=
  let t := clamp temp 0.0 1.0 in
  mk3 (Rmin (t * 3.0) 1.0 + Rmax 0.0 (t - 0.5))
      (Rmin (t * 1.5) 1.0 * smoothstep 0.1 0.5 t)
      (Rmin (t * 0.5) 1.0 * smoothstep 0.4 0.8 t + Rmax 0.0 (t - 0.9)).

(** *** Physics parameters of [fs_main] *)

Definition spin_a (u : Uniforms) : R := clamp (spin u) 0.0 0.99.
Definition horizon_r (u : Uniforms) : R :=
  1.0 + sqrt (1.0 - spin_a u * spin_a u).
Definition isco (u : Uniforms) : R :=
  3.0 + sqrt (3.0 * (3.0 - 2.0 * spin_a u)).
Definition accretion_min (u : Uniforms) : R := isco u * 0.9.
Definition accretion_max : R := 12.0.
Definition max_steps : nat := 120.

(** *** Camera ray *)

Definition ray_origin (u : Uniforms) : vec3 := camera_pos u.

Definition ray_direction (u : Uniforms) (uv : vec2) : vec3 :=
  let aspect := x2 (resolution u) / y2 (resolution u) in
  let ndc := scale2 (sub2 uv (splat2 0.5)) 2.0 in
  let screen_uv := mk2 (x2 ndc * aspect) (- y2 ndc) in
  let cam_dir := normalize (camera_dir u) in
  let world_up := mk3 0.0 1.0 0.0 in
  let right := normalize (cross cam_dir world_up) in
  let up := cross right cam_dir in
  normalize (vadd (vadd (vscale cam_dir 1.5) (vscale right (x2 screen_uv)))
                  (vscale up (y2 screen_uv))).

(** *** Integration state: the [var]s of the ray-marching loop *)

Record Ray : Type := mkRay {
  pos : vec3;
  vel : vec3;
  color : vec3;
  transmittance : R;
  step_dist : R
}.

Definition init_ray (ro rd : vec3) : Ray :=
  mkRay ro rd (splat3 0.0) 1.0 0.0.

(** How an iteration leaves the loop body: it falls through to the next
    iteration, or takes one of the three [break]s; [StepLimit] is the
    exit by the loop condition [i < max_steps]. *)
Inductive Status : Type :=
  Marching | Absorbed | Opaque | Escaped | StepLimit.

(** *** Volumetric disk *)

Definition disk_h (r : R) : R := 0.05 + 0.01 * r * r * 0.1.

(** The condition of the disk [if]. *)
Definition in_disk (u : Uniforms) (t : R) (p : vec3) : bool :=
  let r2 := dot p p in
  let r := sqrt r2 in
  let dist_to_plane := Rabs (vy p) in
  (t >? 0.01) && (r >? accretion_min u) && (r <? accretion_max)
  && (dist_to_plane <? disk_h r).

Definition omega_space (u : Uniforms) (p : vec3) : R :=
  let r2 := dot p p in
  let r := sqrt r2 in
  2.0 * spin_a u * r / pow (r2 + spin_a u * spin_a u) 2.0.

Definition omega_kepler (u : Uniforms) (p : vec3) : R :=
  let r := sqrt (dot p p) in
  1.0 / (pow r 1.5 + spin_a u).

Definition vel_gas (u : Uniforms) (p : vec3) : vec3 :=
  let omega_space := omega_space u p in
  let omega_kepler := omega_kepler u p in
  let omega_gas := omega_kepler in
  vscale (mk3 (- vz p) 0.0 (vx p)) omega_gas.

Definition doppler (beta_sq cos_theta : R) : R :=
  let gamma := 1.0 / sqrt (1.0 - beta_sq) in
  let beta := sqrt beta_sq in
  1.0 / (gamma * (1.0 - beta * cos_theta)).

Definition grav_redshift (r : R) : R := sqrt (Rmax 0.01 (1.0 - 2.0 / r)).

Definition density (u : Uniforms) (p : vec3) : R :=
  let r := sqrt (dot p p) in
  let dist_to_plane := Rabs (vy p) in
  let omega_gas := omega_kepler u p in
  let angle := atan2 (vz p) (vx p) in
  let rot_angle := angle - time u * omega_gas * 10.0 in
  let uv_disk := mk2 (r * 2.0) rot_angle in
  let noise_base := fbm (scale2 uv_disk 2.0) in
  let noise_detail := fbm (add2 (scale2 uv_disk 6.0) (mk2 (time u) 0.0)) in
  let vertical_fade := smoothstep (disk_h r) 0.0 dist_to_plane in
  let radial_fade :=
    smoothstep (accretion_min u) (accretion_min u + 1.0) r
    * smoothstep accretion_max (accretion_max - 2.0) r in
  (noise_base * 0.7 + noise_detail * 0.3) * vertical_fade * radial_fade.

Definition emission (u : Uniforms) (p : vec3) (shift : R) : vec3 :=
  let r := sqrt (dot p p) in
  let temp_profile := pow (accretion_min u / r) 1.5 in
  let intensity :=
    density u p * temp_profile * pow shift 4.0 * disk_intensity u in
  let shifted_temp := temp_profile * shift in
  vscale (vscale (blackbody shifted_temp) intensity) 2.0.

Definition alpha (u : Uniforms) (st : Ray) : R :=
  let segment_len := Rmax 0.01 (step_dist st) in
  1.0 - exp (- density u (pos st) * segment_len * 2.0).

Definition beta_sq (u : Uniforms) (p : vec3) : R :=
  let beta_vec := vel_gas u p in
  dot beta_vec beta_vec.

Definition cos_theta (u : Uniforms) (st : Ray) : R :=
  let view_dir := vneg (normalize (vel st)) in
  let beta_vec := vel_gas u (pos st) in
  dot (normalize beta_vec) view_dir.

Definition shift (u : Uniforms) (st : Ray) : R :=
  let r := sqrt (dot (pos st) (pos st)) in
  doppler (beta_sq u (pos st)) (cos_theta u st) * grav_redshift r.

(** The body of the disk [if]: the new [color] and [transmittance]. *)
Definition disk_shade (u : Uniforms) (st : Ray) : vec3 * R :=
  if beta_sq u (pos st) <? 0.99 then
    if density u (pos st) >? 0.05 then
      (vadd (color st)
            (vscale (vscale (emission u (pos st) (shift u st)) (alpha u st))
                    (transmittance st)),
       transmittance st * (1.0 - alpha u st))
    else (color st, transmittance st)
  else (color st, transmittance st).

(** *** Gravity *)

Definition acc_schwarzschild (p v : vec3) : vec3 :=
  let r := sqrt (dot p p) in
  let rv_dot := dot p v in
  vscale p (-1.5 * RS * (rv_dot * rv_dot) / pow r 5.0).

Definition acc_spin (u : Uniforms) (p v : vec3) : vec3 :=
  let r2 := dot p p in
  let r := sqrt r2 in
  if spin u >? 0.01 then
    let J := vscale (vscale (mk3 0.0 1.0 0.0) (spin u)) M in
    let rxJ := cross p J in
    let curl_field :=
      vdiv (vsub (vscale p (3.0 * dot p J)) (vscale J r2)) (pow r 5.0) in
    vscale (cross v curl_field) 2.0
  else splat3 0.0.

(** *** One iteration of the ray-marching loop *)

Definition march_step (u : Uniforms) (st : Ray) : Status * Ray :=
  let r2 := dot (pos st) (pos st) in
  let r := sqrt r2 in
  if r <? horizon_r u then
    (Absorbed,
     mkRay (pos st) (vel st)
           (vadd (color st) (vscale (splat3 0.0) (transmittance st)))
           0.0 (step_dist st))
  else
    let '(c, t) :=
      if in_disk u (transmittance st) (pos st) then disk_shade u st
      else (color st, transmittance st) in
    if t <? 0.01 then (Opaque, mkRay (pos st) (vel st) c t (step_dist st))
    else
      let h := clamp (0.05 * (r - horizon_r u)) 0.02 0.5 in
      let acc_total :=
        vadd (acc_schwarzschild (pos st) (vel st))
             (acc_spin u (pos st) (vel st)) in
      let vel' :=
        if lensing_enabled u >? 0.5
        then normalize (vadd (vel st) (vscale acc_total h))
        else vel st in
      let pos' := vadd (pos st) (vscale vel' h) in
      let st' := mkRay pos' vel' c t h in
      if r >? 30.0 then (Escaped, st') else (Marching, st').

(** [fuel] iterations of the loop; with [fuel] iterations used up and no
    [break] taken the status is [StepLimit]. *)
Fixpoint march_loop (u : Uniforms) (fuel : nat) (st : Ray) : Status * Ray :=
  match fuel with
  | O => (StepLimit, st)
  | S k =>
      match march_step u st with
      | (Marching, st') => march_loop u k st'
      | done => done
      end
  end.

Definition march (u : Uniforms) (st : Ray) : Status * Ray :=
  march_loop u max_steps st.

(** Sum of the step sizes [h] taken by the first [n] iterations. *)
Fixpoint path_length (u : Uniforms) (n : nat) (st : Ray) : R :=
  match n with
  | O => 0
  | S k =>
      match march_step u st with
      | (Marching, st') => step_dist st' + path_length u k st'
      | (Escaped, st') => step_dist st'
      | _ => 0
      end
  end.

(** *** Background *)

Definition background (u : Uniforms) (v : vec3) : vec3 :=
  let sky_dir := normalize v in
  let a := atan2 (vz sky_dir) (vx sky_dir) in
  let e := vy sky_dir in
  let uv_sky := mk2 a e in
  let star_layer1 := noise (scale2 uv_sky 150.0) in
  let star_layer1 := pow (Rmax 0.0 star_layer1) 40.0 * 1.5 in
  let star_layer2 := noise (add2 (scale2 uv_sky 60.0) (splat2 5.0)) in
  let star_layer2 := pow (Rmax 0.0 star_layer2) 50.0 * 2.0 in
  let stars := star_layer1 + star_layer2 in
  let warp := fbm (add2 (scale2 uv_sky 3.0) (mk2 0.0 (time u * 0.01))) in
  let galactic_plane_dist := Rabs (e + warp * 0.1) in
  let galaxy_density := 1.0 / (1.0 + galactic_plane_dist * 8.0) in
  let neb_noise := fbm (add2 (mul2 uv_sky (mk2 5.0 2.0)) (splat2 warp)) in
  let neb_detail :=
    fbm (sub2 (mul2 uv_sky (mk2 10.0 5.0)) (splat2 (time u * 0.02))) in
  let deep_purple := mk3 0.1 0.0 0.2 in
  let cosmic_blue := mk3 0.1 0.2 0.5 in
  let core_glow := mk3 1.0 0.8 0.6 in
  let galaxy_col := vmix deep_purple cosmic_blue neb_noise in
  let galaxy_col :=
    vmix galaxy_col core_glow (galaxy_density * neb_detail * galaxy_density) in
  let dust := fbm (add2 (scale2 uv_sky 12.0) (splat2 100.0)) in
  let dust_mask := smoothstep 0.4 0.7 dust in
  let galaxy_col :=
    vscale galaxy_col (1.0 - dust_mask * 0.8 * galaxy_density) in
  let galaxy_final := vscale (vscale galaxy_col galaxy_density) 2.0 in
  vadd (splat3 stars) galaxy_final.

(** The accumulated colour after the background stage. *)
Definition add_background (u : Uniforms) (st : Ray) : vec3 :=
  if transmittance st >? 0.0
  then vadd (color st) (vscale (background u (vel st)) (transmittance st))
  else color st.

(** *** Tone mapping and gamma *)

Definition uncharted2 (x : R) : R :=
  let A := 0.15 in let B := 0.50 in let C := 0.10 in
  let D := 0.20 in let E := 0.02 in let F := 0.30 in
  ((x * (A * x + C * B) + D * E) / (x * (A * x + B) + D * F)) - E / F.

(** Over [R] the curve [uncharted2] is exactly [0] at [0].  In [f32] the
    quotients [(D * E) / (D * F)] and [E / F] round differently, so the
    shader maps black to a small positive value and not to [0]: the model
    and the shader agree on [tonemap] up to that rounding only. *)
Definition tonemap (c : vec3) : vec3 :=
  let exposed := vscale c 1.5 in
  let W := 11.2 in
  let tonemapped := vmap uncharted2 exposed in
  let white := uncharted2 W in
  let tonemapped := vdiv tonemapped white in
  vmap (fun x => pow x (1.0 / 2.2)) tonemapped.

(** *** The fragment shader *)

(** Accumulators at the end of the loop, with the exit taken. *)
Definition integrate (u : Uniforms) (uv : vec2) : Status * Ray :=
  march u (init_ray (ray_origin u) (ray_direction u uv)).

(** Accumulated colour before tone mapping. *)
Definition radiance (u : Uniforms) (uv : vec2) : vec3 :=
  add_background u (snd (integrate u uv)).

Definition fs_main (u : Uniforms) (uv : vec2) : vec4 :=
  let final_col := tonemap (radiance u uv) in
  mk4 (vx final_col) (vy final_col) (vz final_col) 1.0.

End Shader.

Import Shader.

(** ** Vocabulary of the properties *)

(** Brightness of a colour: the sum of its channels. *)
Definition brightness (c : vec3) : R := vx c + vy c + vz c.

(** The disk sample adds light: both guards of the disk body pass. *)
Definition contributes (u : Uniforms) (st : Ray) : bool :=
  (beta_sq u (pos st) <? 0.99) && (density u (pos st) >? 0.05).

(** The accumulators after [n] iterations of the loop (or at the [break],
    when the loop has left earlier). *)
Definition after (u : Uniforms) (n : nat) (st : Ray) : Ray :=
  snd (march_loop u n st).

(** What one iteration does to the two accumulators. *)
Definition step_acc (u : Uniforms) (st : Ray) : vec3 * R :=
  if sqrt (dot (pos st) (pos st)) <? horizon_r u then
    (vadd (color st) (vscale (splat3 0.0) (transmittance st)), 0.0)
  else if in_disk u (transmittance st) (pos st) then disk_shade u st
  else (color st, transmittance st).

(** A frame at time [0] with unit disk intensity on an 800 x 600 target. *)
Definition frame (s lensing : R) (cam dir : vec3) : Uniforms :=
  mkUniforms 0 s 1 lensing (mk2 800 600) cam dir (mk3 0 1 0).

(** A frame whose camera sits inside the disk, at [(9,0,0)] in the
    equatorial plane, looking along [z], for a hole without spin at time
    [8.1]: there the disk has turned by [-3] radians at radius [9]. *)
Definition disk_frame (intensity : R) : Uniforms :=
  mkUniforms 8.1 0 intensity 1 (mk2 800 600)
             (mk3 9 0 0) (mk3 0 0 1) (mk3 0 1 0).

(** The trigger of the disk shader as the specification words it. *)
Definition spec_trigger (u : Uniforms) (t : R) (p : vec3) : Prop :=
  let r := sqrt (dot p p) in
  t > 0.01 /\ accretion_min u <= r <= accretion_max
  /\ Rabs (vy p) < 0.05 + 0.001 * (r * r).

(** ** The vertex stage *)

Module VertexStage.

Record VertexOutput : Type := mkVertexOutput {
  Position : vec4;
  uv : vec2
}.

Definition positions : list vec2 :=
  [ mk2 (-1.0) (-1.0); mk2 1.0 (-1.0); mk2 (-1.0) 1.0;
    mk2 (-1.0) 1.0; mk2 1.0 (-1.0); mk2 1.0 1.0 ].

(** [vs_main] is drawn with six vertices; an index outside the array has no
    defined output. *)
Definition vs_main (VertexIndex : nat) : option VertexOutput :=
  match nth_error positions VertexIndex with
  | Some p =>
      Some (mkVertexOutput (mk4 (x2 p) (y2 p) 0.0 1.0)
                           (add2 (scale2 p 0.5) (splat2 0.5)))
  | None => None
  end.

End VertexStage.

(** ** JavaScript numbers

    The TypeScript side computes in doubles; as for the shader, they are
    read as real numbers. *)

Module Js.

Definition geb (x y : R) : bool := if Rle_dec y x then true else false.

(** [Math.round]: the nearest integer, halves rounded up. *)
Definition round (x : R) : Z := Int_part (x + 0.5).

(** A write [a[i] = v] into a typed array: ignored outside the array. *)
Fixpoint write (i : nat) (v : R) (a : list R) : list R :=
  match a, i with
  | [], _ => []
  | _ :: t, O => v :: t
  | h :: t, S k => h :: write k v t
  end.

End Js.

(** ** The application shell: parameters, mouse and wheel *)

Module App.

Record SimulationParams : Type := mkParams {
  spin : R;
  diskIntensity : R;
  gravitationalLensing : R;
  zoom : R;
  cameraAngle : R;
  cameraHeight : R
}.

Record MousePos : Type := mkPos { x : R; y : R }.

(** The three pieces of React state the handlers read and write.  A
    handler runs on the state of the latest render; [run] feeds the events
    one after the other, each on the state the one before has left. *)
Record State : Type := mkState {
  params : SimulationParams;
  isDragging : bool;
  lastMousePos : MousePos
}.

Definition initial : State :=
  mkState (mkParams 0.90 1.0 1 6.0 0.0 1.5) false (mkPos 0 0).

Definition handleMouseDown (e : MousePos) (s : State) : State :=
  mkState (params s) true e.

Definition handleMouseMove (e : MousePos) (s : State) : State :=
  if negb (isDragging s) then s
  else
    let dx := x e - x (lastMousePos s) in
    let dy := y e - y (lastMousePos s) in
    let prev := params s in
    mkState
      (mkParams (spin prev) (diskIntensity prev) (gravitationalLensing prev)
                (zoom prev)
                (cameraAngle prev + dx * 0.005)
                (Rmax 0.1 (Rmin 3.1 (cameraHeight prev + dy * 0.005))))
      (isDragging s) e.

Definition handleMouseUp (s : State) : State :=
  mkState (params s) false (lastMousePos s).

Definition handleWheel (deltaY : R) (s : State) : State :=
  let prev := params s in
  mkState
    (mkParams (spin prev) (diskIntensity prev) (gravitationalLensing prev)
              (Rmax 2.5 (Rmin 20 (zoom prev + deltaY * 0.005)))
              (cameraAngle prev) (cameraHeight prev))
    (isDragging s) (lastMousePos s).

(** The events of the root element; [onMouseLeave] is wired to
    [handleMouseUp]. *)
Inductive Event : Type :=
| MouseDown (e : MousePos)
| MouseMove (e : MousePos)
| MouseUp
| MouseLeave
| Wheel (deltaY : R).

Definition handle (s : State) (ev : Event) : State :=
  match ev with
  | MouseDown e => handleMouseDown e s
  | MouseMove e => handleMouseMove e s
  | MouseUp => handleMouseUp s
  | MouseLeave => handleMouseUp s
  | Wheel d => handleWheel d s
  end.

Definition run (evs : list Event) (s : State) : State :=
  fold_left handle evs s.

End App.

(** ** The control panel *)

Module Panel.

(** [keyof SimulationParams]. *)
Inductive Key : Type :=
  KSpin | KDiskIntensity | KGravitationalLensing | KZoom | KCameraAngle
| KCameraHeight.

Definition get (key : Key) (p : App.SimulationParams) : R :=
  match key with
  | KSpin => App.spin p
  | KDiskIntensity => App.diskIntensity p
  | KGravitationalLensing => App.gravitationalLensing p
  | KZoom => App.zoom p
  | KCameraAngle => App.cameraAngle p
  | KCameraHeight => App.cameraHeight p
  end.

(** [setParams(prev => ({ ...prev, [key]: value }))]. *)
Definition handleChange (key : Key) (value : R) (prev : App.SimulationParams)
  : App.SimulationParams :=
  App.mkParams
    (match key with KSpin => value | _ => App.spin prev end)
    (match key with KDiskIntensity => value | _ => App.diskIntensity prev end)
    (match key with
     | KGravitationalLensing => value
     | _ => App.gravitationalLensing prev
     end)
    (match key with KZoom => value | _ => App.zoom prev end)
    (match key with KCameraAngle => value | _ => App.cameraAngle prev end)
    (match key with KCameraHeight => value | _ => App.cameraHeight prev end).

(** The click handler of the lensing toggle. *)
Definition toggleLensing (p : App.SimulationParams) : App.SimulationParams :=
  handleChange KGravitationalLensing
               (if App.gravitationalLensing p >? 0.5 then 0 else 1) p.

End Panel.

(** ** The renderer: camera, uniform buffer, frame counter *)

Module Renderer.

Definition phi (p : App.SimulationParams) : R :=
  Rmax 0.01 (Rmin (PI - 0.01) (App.cameraHeight p)).

Definition camPos (p : App.SimulationParams) : vec3 :=
  let r := App.zoom p in
  let theta := App.cameraAngle p in
  let cx := r * sin (phi p) * cos theta in
  let cy := r * cos (phi p) in
  let cz := r * sin (phi p) * sin theta in
  mk3 cx cy cz.

Definition camDir (p : App.SimulationParams) : vec3 :=
  let cx := vx (camPos p) in
  let cy := vy (camPos p) in
  let cz := vz (camPos p) in
  let len := sqrt (cx * cx + cy * cy + cz * cz) in
  mk3 (- cx / len) (- cy / len) (- cz / len).

(** The packed [Float32Array(20)]; the slots never written stay [0]. *)
Definition uniformData (time : R) (p : App.SimulationParams)
  (resolution : vec2) : list R :=
  let d := repeat 0 20 in
  let d := Js.write 0 time d in
  let d := Js.write 1 (App.spin p) d in
  let d := Js.write 2 (App.diskIntensity p) d in
  let d := Js.write 3 (App.gravitationalLensing p) d in
  let d := Js.write 4 (x2 resolution) d in
  let d := Js.write 5 (y2 resolution) d in
  let d := Js.write 8 (vx (camPos p)) d in
  let d := Js.write 9 (vy (camPos p)) d in
  let d := Js.write 10 (vz (camPos p)) d in
  let d := Js.write 12 (vx (camDir p)) d in
  let d := Js.write 13 (vy (camDir p)) d in
  let d := Js.write 14 (vz (camDir p)) d in
  let d := Js.write 16 0 d in
  let d := Js.write 17 1 d in
  let d := Js.write 18 0 d in
  d.

Definition uniformBufferSize : nat := 80.

(** The frame counter: the two refs and, every 500 ms, a report of the
    rounded frames per second and the mean frame time. *)
Record FpsRefs : Type := mkFpsRefs {
  frameCount : nat;
  lastFpsTime : R
}.

Definition fpsStep (now : R) (refs : FpsRefs)
  : option (Z * R) * FpsRefs :=
  let count := S (frameCount refs) in
  if Js.geb (now - lastFpsTime refs) 500 then
    let duration := now - lastFpsTime refs in
    let fps := Js.round ((INR count * 1000) / duration) in
    let frameTime := duration / INR count in
    (Some (fps, frameTime), mkFpsRefs 0 now)
  else (None, mkFpsRefs count (lastFpsTime refs)).

End Renderer.

(** ** The uniform block as the shader reads it

    The members of [struct Uniforms] in declaration order, with the
    alignment and size WGSL gives each type; a member sits at the first
    multiple of its alignment after the member before it. *)

Module Layout.

Inductive Ty : Type := F32 | Vec2f | Vec3f.

Definition alignOf (t : Ty) : nat :=
  match t with F32 => 4 | Vec2f => 8 | Vec3f => 16 end.

Definition sizeOf (t : Ty) : nat :=
  match t with F32 => 4 | Vec2f => 8 | Vec3f => 12 end.

Definition roundUp (k n : nat) : nat := ((n + k - 1) / k) * k.

Fixpoint offsetsFrom (next : nat) (ms : list Ty) : list nat :=
  match ms with
  | [] => []
  | t :: rest =>
      let o := roundUp (alignOf t) next in
      o :: offsetsFrom (o + sizeOf t) rest
  end.

Fixpoint endFrom (next : nat) (ms : list Ty) : nat :=
  match ms with
  | [] => next
  | t :: rest => endFrom (roundUp (alignOf t) next + sizeOf t) rest
  end.

Definition structAlign (ms : list Ty) : nat :=
  fold_right (fun t a => Nat.max (alignOf t) a) 1%nat ms.

Definition structSize (ms : list Ty) : nat :=
  roundUp (structAlign ms) (endFrom 0 ms).

(** [struct Uniforms]. *)
Definition members : list Ty :=
  [F32; F32; F32; F32; Vec2f; Vec3f; Vec3f; Vec3f].

Definition offsets : list nat := offsetsFrom 0 members.

(** The 32-bit slot of member [k]. *)
Definition slot (k : nat) : nat := (nth k offsets 0%nat / 4)%nat.

Definition f32At (d : list R) (i : nat) : R := nth i d 0.
Definition vec2At (d : list R) (i : nat) : vec2 :=
  mk2 (f32At d i) (f32At d (i + 1)).
Definition vec3At (d : list R) (i : nat) : vec3 :=
  mk3 (f32At d i) (f32At d (i + 1)) (f32At d (i + 2)).

(** The [params] binding over a buffer of 32-bit floats. *)
Definition bind (d : list R) : Uniforms :=
  mkUniforms (f32At d (slot 0)) (f32At d (slot 1)) (f32At d (slot 2))
             (f32At d (slot 3)) (vec2At d (slot 4)) (vec3At d (slot 5))
             (vec3At d (slot 6)) (vec3At d (slot 7)).

End Layout.

(** The uniforms of a frame: what the shader reads from the buffer the
    renderer packs. *)
Definition frame_uniforms (time : R) (p : App.SimulationParams)
  (resolution : vec2) : Uniforms :=
  Layout.bind (Renderer.uniformData time p resolution).

(** ** More vocabulary *)

Definition set_camera_up (u : Uniforms) (up : vec3) : Uniforms :=
  mkUniforms (time u) (spin u) (disk_intensity u) (lensing_enabled u)
             (resolution u) (camera_pos u) (camera_dir u) up.

Definition set_lensing (u : Uniforms) (l : R) : Uniforms :=
  mkUniforms (time u) (spin u) (disk_intensity u) l
             (resolution u) (camera_pos u) (camera_dir u) (camera_up u).

(** Twice the signed area of the triangle [a b c]: positive when the
    vertices run counter-clockwise. *)
Definition edge (a b c : vec2) : R :=
  (x2 b - x2 a) * (y2 c - y2 a) - (y2 b - y2 a) * (x2 c - x2 a).

(** The point [q] lies in the counter-clockwise triangle [a b c]. *)
Definition in_triangle (a b c q : vec2) : Prop :=
  0 <= edge a b q /\ 0 <= edge b c q /\ 0 <= edge c a q.

(** The clip-space position of vertex [i], [(0,0)] when there is none. *)
Definition vertex_xy (i : nat) : vec2 :=
  match VertexStage.vs_main i with
  | Some o => mk2 (cr (VertexStage.Position o)) (cg (VertexStage.Position o))
  | None => mk2 0 0
  end.

(** ** Builtins: comparison, clamp, ramps *)

Section Builtins.

Lemma ltb_lt (x y : R) : (x <? y) = true <-> x < y.
Proof.
  unfold ltb. destruct (Rlt_dec x y); split; intros; auto; discriminate.
Qed.

Lemma ltb_ge (x y : R) : (x <? y) = false <-> y <= x.
Proof.
  unfold ltb.
  destruct (Rlt_dec x y); split; intros; auto; try discriminate; lra.
Qed.

Lemma gtb_gt (x y : R) : (x >? y) = true <-> x > y.
Proof. unfold gtb. rewrite ltb_lt. lra. Qed.

Lemma gtb_le (x y : R) : (x >? y) = false <-> x <= y.
Proof. unfold gtb. apply ltb_ge. Qed.

Lemma clamp_id (e low high : R) :
  low <= e <= high -> clamp e low high = e.
Proof.
  intros [H1 H2]. unfold clamp.
  rewrite (Rmax_left e low) by lra. apply Rmin_left. lra.
Qed.

Lemma clamp_low (e low high : R) :
  low <= high -> e <= low -> clamp e low high = low.
Proof.
  intros H1 H2. unfold clamp.
  rewrite (Rmax_right e low) by lra. apply Rmin_left. lra.
Qed.

Lemma clamp_high (e low high : R) :
  low <= high -> high <= e -> clamp e low high = high.
Proof.
  intros H1 H2. unfold clamp.
  rewrite (Rmax_left e low) by lra. apply Rmin_right. lra.
Qed.

Lemma clamp_bounds (e low high : R) :
  low <= high -> low <= clamp e low high <= high.
Proof.
  intros H. unfold clamp, Rmin, Rmax.
  destruct (Rle_dec e low); destruct (Rle_dec _ high); lra.
Qed.

Lemma clamp_idem (e low high : R) :
  low <= high -> clamp (clamp e low high) low high = clamp e low high.
Proof. intros H. apply clamp_id. apply clamp_bounds. exact H. Qed.

Lemma clamp_mono (a b low high : R) :
  a <= b -> clamp a low high <= clamp b low high.
Proof.
  intros H. unfold clamp.
  apply Rle_min_compat_r. apply Rle_max_compat_r. exact H.
Qed.

(** The Hermite polynomial [t^2 (3 - 2 t)] on the unit interval. *)
Lemma hermite_bounds (t : R) : 0 <= t <= 1 -> 0 <= t * t * (3 - 2 * t) <= 1.
Proof.
  intros [H0 H1]. split.
  - apply Rmult_le_pos; [apply Rle_0_sqr | lra].
  - assert (E : 1 - t * t * (3 - 2 * t) = (1 - t) * (1 - t) * (1 + 2 * t))
      by ring.
    assert (0 <= (1 - t) * (1 - t) * (1 + 2 * t)).
    { apply Rmult_le_pos; [apply Rle_0_sqr | lra]. }
    lra.
Qed.

Lemma hermite_mono (a b : R) :
  0 <= a -> a <= b -> b <= 1 -> a * a * (3 - 2 * a) <= b * b * (3 - 2 * b).
Proof.
  intros Ha Hab Hb.
  assert (E : b * b * (3 - 2 * b) - a * a * (3 - 2 * a)
              = (b - a) * (3 * (a + b) - 2 * (a * a + a * b + b * b))) by ring.
  assert (0 <= 3 * (a + b) - 2 * (a * a + a * b + b * b)) by nra.
  assert (0 <= (b - a) * (3 * (a + b) - 2 * (a * a + a * b + b * b))).
  { apply Rmult_le_pos; lra. }
  lra.
Qed.

Lemma smoothstep_bounds (low high x : R) : 0 <= smoothstep low high x <= 1.
Proof.
  unfold smoothstep. apply hermite_bounds. apply clamp_bounds. lra.
Qed.

Lemma smoothstep_mono (low high a b : R) :
  low < high -> a <= b -> smoothstep low high a <= smoothstep low high b.
Proof.
  intros Hl Hab. unfold smoothstep.
  pose proof (clamp_bounds ((a - low) / (high - low)) 0 1 ltac:(lra)).
  pose proof (clamp_bounds ((b - low) / (high - low)) 0 1 ltac:(lra)).
  apply hermite_mono; try lra.
  apply clamp_mono. unfold Rdiv. apply Rmult_le_compat_r.
  - left. apply Rinv_0_lt_compat. lra.
  - lra.
Qed.

Lemma smoothstep_below (low high x : R) :
  low < high -> x <= low -> smoothstep low high x = 0.
Proof.
  intros Hl Hx. unfold smoothstep.
  rewrite clamp_low; try lra.
  unfold Rdiv. assert (0 < / (high - low)) by (apply Rinv_0_lt_compat; lra).
  nra.
Qed.

Lemma smoothstep_above (low high x : R) :
  low < high -> high <= x -> smoothstep low high x = 1.
Proof.
  intros Hl Hx. unfold smoothstep.
  rewrite clamp_high; try lra.
  assert (Hi : 0 < / (high - low)) by (apply Rinv_0_lt_compat; lra).
  assert (E : (high - low) * / (high - low) = 1) by (apply Rinv_r; lra).
  unfold Rdiv. nra.
Qed.

Lemma fract_bounds (x : R) : 0 <= fract x < 1.
Proof.
  unfold fract, floor. pose proof (base_fp x) as [H1 H2].
  unfold frac_part in *. lra.
Qed.

Lemma mix_bounds (x y a lo hi : R) :
  lo <= x <= hi -> lo <= y <= hi -> 0 <= a <= 1 -> lo <= mix x y a <= hi.
Proof. intros Hx Hy Ha. unfold mix. split; nra. Qed.

Lemma pow_nonneg (x y : R) : 0 <= pow x y.
Proof.
  unfold pow. destruct (Rlt_dec 0 x); [| lra].
  left. unfold Rpower. apply exp_pos.
Qed.

End Builtins.

(** ** Derived constants: horizon radius *)

Section Horizon.

Lemma sqrt_between (lo hi x : R) :
  0 <= lo -> 0 <= hi -> lo * lo < x -> x < hi * hi -> lo < sqrt x < hi.
Proof.
  intros Hlo Hhi H1 H2. split.
  - rewrite <- (sqrt_square lo) at 1 by exact Hlo.
    apply sqrt_lt_1_alt. nra.
  - rewrite <- (sqrt_square hi) by exact Hhi.
    apply sqrt_lt_1_alt. nra.
Qed.

Lemma spin_a_set_spin (u : Uniforms) (a : R) :
  spin_a (set_spin u a) = clamp a 0 0.99.
Proof. unfold spin_a, set_spin; simpl. f_equal; lra. Qed.

Lemma spin_a_bounds (u : Uniforms) : 0 <= spin_a u <= 0.99.
Proof.
  unfold spin_a. pose proof (clamp_bounds (spin u) 0.0 0.99 ltac:(lra)). lra.
Qed.

Lemma horizon_r_spin (u : Uniforms) (a : R) :
  0 <= a <= 0.99 -> horizon_r (set_spin u a) = 1 + sqrt (1 - a * a).
Proof.
  intros Ha. unfold horizon_r. rewrite spin_a_set_spin.
  rewrite clamp_id by exact Ha. f_equal; [lra | f_equal; lra].
Qed.

Lemma horizon_r_bounds (u : Uniforms) : 1 < horizon_r u <= 2.
Proof.
  unfold horizon_r. pose proof (spin_a_bounds u) as Hs.
  assert (0 < sqrt (1.0 - spin_a u * spin_a u)) by (apply sqrt_lt_R0; nra).
  assert (sqrt (1.0 - spin_a u * spin_a u) <= sqrt 1).
  { apply sqrt_le_1_alt. nra. }
  rewrite sqrt_1 in *. lra.
Qed.

(** C6. For every spin [a] in [[0, 0.99]] the horizon radius computed by
    the kernel is [1 + sqrt (1 - a^2)]; it is strictly decreasing in [a];
    it is exactly [2] at [a = 0]; and at [a = 0.9] it is
    [1 + sqrt (1 - 0.81)], about [1.436], strictly below the value at
    [a = 0]. *)
Theorem horizon_radius_decreasing (u : Uniforms) :
  (forall a, 0 <= a <= 0.99 ->
             horizon_r (set_spin u a) = 1 + sqrt (1 - a * a))
  /\ (forall a b, 0 <= a -> a < b -> b <= 0.99 ->
                  horizon_r (set_spin u b) < horizon_r (set_spin u a))
  /\ horizon_r (set_spin u 0) = 2
  /\ horizon_r (set_spin u 0.9) = 1 + sqrt (1 - 0.81)
  /\ 1.435 < horizon_r (set_spin u 0.9) < 1.437
  /\ horizon_r (set_spin u 0.9) < horizon_r (set_spin u 0).
Proof.
  assert (H0 : horizon_r (set_spin u 0) = 2).
  { rewrite horizon_r_spin by lra.
    replace (1 - 0 * 0) with 1 by ring. rewrite sqrt_1. ring. }
  assert (H9 : horizon_r (set_spin u 0.9) = 1 + sqrt (1 - 0.81)).
  { rewrite horizon_r_spin by lra. f_equal. f_equal. lra. }
  assert (B9 : 0.435 < sqrt (1 - 0.81) < 0.437).
  { apply sqrt_between; lra. }
  repeat split.
  - apply horizon_r_spin.
  - intros a b Ha Hab Hb.
    rewrite !horizon_r_spin by lra.
    apply Rplus_lt_compat_l. apply sqrt_lt_1_alt. nra.
  - exact H0.
  - exact H9.
  - rewrite H9. lra.
  - rewrite H9. lra.
  - rewrite H9, H0. lra.
Qed.

Lemma horizon_radius_decreasing_witness :
  let u := frame 0.5 1 (mk3 0 1.5 (-6)) (mk3 0 0 1) in
  horizon_r (set_spin u 0.5) = 1 + sqrt (1 - 0.5 * 0.5)
  /\ horizon_r (set_spin u 0.9) < horizon_r (set_spin u 0.5).
Proof.
  intros u.
  destruct (horizon_radius_decreasing u) as (H1 & H2 & _).
  split; [apply H1; lra | apply H2; lra].
Defined.

End Horizon.

(** ** Relativistic Doppler factor *)

Section Doppler.

Lemma doppler_closed_form (beta_sq c : R) :
  0 <= beta_sq < 1 -> 0 < 1 - sqrt beta_sq * c ->
  doppler beta_sq c = sqrt (1 - beta_sq) / (1 - sqrt beta_sq * c).
Proof.
  intros Hb Hc. unfold doppler. cbv zeta.
  replace (1.0 - beta_sq) with (1 - beta_sq) by lra.
  assert (Hs : 0 < sqrt (1 - beta_sq)) by (apply sqrt_lt_R0; lra).
  replace 1.0 with 1 by lra.
  field. split; lra.
Qed.

(** C9. For a gas speed with [0 < beta^2 < 0.99] the Doppler factor
    [1 / (gamma (1 - beta cos_theta))], [gamma = 1 / sqrt (1 - beta^2)],
    is above [1] for gas moving straight toward the observer
    ([cos_theta = 1]) and below [1] for gas moving straight away
    ([cos_theta = -1]). *)
Theorem doppler_toward_away (beta_sq : R) :
  0 < beta_sq -> beta_sq < 0.99 ->
  doppler beta_sq 1 > 1 /\ doppler beta_sq (-1) < 1.
Proof.
  intros H0 H1.
  assert (Hb : 0 < sqrt beta_sq) by (apply sqrt_lt_R0; lra).
  assert (Hbb : sqrt beta_sq * sqrt beta_sq = beta_sq)
    by (apply sqrt_sqrt; lra).
  assert (Hb1 : sqrt beta_sq < 1) by nra.
  assert (Hs : 0 < sqrt (1 - beta_sq)) by (apply sqrt_lt_R0; lra).
  assert (Hss : sqrt (1 - beta_sq) * sqrt (1 - beta_sq) = 1 - beta_sq)
    by (apply sqrt_sqrt; lra).
  set (b := sqrt beta_sq) in *. set (s := sqrt (1 - beta_sq)) in *.
  split.
  - rewrite doppler_closed_form by (fold b; lra). fold b s.
    assert (1 - b < s) by nra.
    apply Rlt_gt. apply Rmult_lt_reg_r with (1 - b * 1); [lra |].
    unfold Rdiv. rewrite Rmult_assoc, Rinv_l by lra. lra.
  - rewrite doppler_closed_form by (fold b; lra). fold b s.
    assert (s < 1 + b) by nra.
    apply Rmult_lt_reg_r with (1 - b * -1); [lra |].
    unfold Rdiv. rewrite Rmult_assoc, Rinv_l by lra. lra.
Qed.

Lemma doppler_toward_away_witness :
  doppler 0.25 1 > 1 /\ doppler 0.25 (-1) < 1.
Proof. apply (doppler_toward_away 0.25); lra. Defined.

End Doppler.

(** ** The blackbody colour ramp *)

Section Blackbody.

Lemma blackbody_clamps (temp : R) :
  blackbody temp = blackbody (clamp temp 0 1).
Proof.
  unfold blackbody. cbv zeta.
  replace (clamp (clamp temp 0 1) 0.0 1.0) with (clamp temp 0.0 1.0).
  - reflexivity.
  - replace 0.0 with 0 by lra. replace 1.0 with 1 by lra.
    symmetry. apply clamp_idem. lra.
Qed.

Lemma blackbody_cold : blackbody 0 = mk3 0 0 0.
Proof.
  unfold blackbody. cbv zeta.
  replace (clamp 0 0.0 1.0) with 0 by (rewrite clamp_id; lra).
  rewrite (smoothstep_below 0.1 0.5 0) by lra.
  rewrite (smoothstep_below 0.4 0.8 0) by lra.
  rewrite !Rmin_left by lra. rewrite !Rmax_left by lra.
  f_equal; lra.
Qed.

Lemma blackbody_hot : blackbody 1 = mk3 1.5 1 0.6.
Proof.
  unfold blackbody. cbv zeta.
  replace (clamp 1 0.0 1.0) with 1 by (rewrite clamp_id; lra).
  rewrite (smoothstep_above 0.1 0.5 1) by lra.
  rewrite (smoothstep_above 0.4 0.8 1) by lra.
  rewrite (Rmin_right (1 * 3.0)) by lra.
  rewrite (Rmin_right (1 * 1.5)) by lra.
  rewrite (Rmin_left (1 * 0.5)) by lra.
  rewrite !Rmax_right by lra.
  f_equal; lra.
Qed.

(** Just above zero the ramp is pure red. *)
Lemma blackbody_cool_is_red (t : R) :
  0 <= t <= 0.1 -> blackbody t = mk3 (3 * t) 0 0.
Proof.
  intros Ht. unfold blackbody. cbv zeta.
  replace (clamp t 0.0 1.0) with t by (rewrite clamp_id; lra).
  rewrite (smoothstep_below 0.1 0.5 t) by lra.
  rewrite (smoothstep_below 0.4 0.8 t) by lra.
  rewrite (Rmin_left (t * 3.0)) by lra.
  rewrite !Rmax_left by lra.
  f_equal; lra.
Qed.

Lemma blackbody_nonneg (temp : R) : vle (splat3 0) (blackbody temp).
Proof.
  unfold blackbody, vle. cbv zeta. simpl.
  pose proof (clamp_bounds temp 0.0 1.0 ltac:(lra)) as Ht.
  set (t := clamp temp 0.0 1.0) in *.
  pose proof (smoothstep_bounds 0.1 0.5 t).
  pose proof (smoothstep_bounds 0.4 0.8 t).
  assert (0 <= Rmin (t * 3.0) 1.0) by (apply Rmin_glb; lra).
  assert (0 <= Rmin (t * 1.5) 1.0) by (apply Rmin_glb; lra).
  assert (0 <= Rmin (t * 0.5) 1.0) by (apply Rmin_glb; lra).
  pose proof (Rmax_l 0.0 (t - 0.5)). pose proof (Rmax_l 0.0 (t - 0.9)).
  repeat split; try lra.
  - apply Rmult_le_pos; lra.
  - assert (0 <= Rmin (t * 0.5) 1.0 * smoothstep 0.4 0.8 t)
      by (apply Rmult_le_pos; lra).
    lra.
Qed.

(** Every channel of the ramp is non-decreasing in the temperature. *)
Lemma blackbody_mono (s t : R) : s <= t -> vle (blackbody s) (blackbody t).
Proof.
  intros Hst. unfold blackbody, vle. cbv zeta. simpl.
  pose proof (clamp_bounds s 0.0 1.0 ltac:(lra)) as Hs.
  pose proof (clamp_bounds t 0.0 1.0 ltac:(lra)) as Ht.
  pose proof (clamp_mono s t 0.0 1.0 Hst) as Hm.
  set (a := clamp s 0.0 1.0) in *. set (b := clamp t 0.0 1.0) in *.
  assert (Hmin : forall k, 0 <= k -> 0 <= Rmin (a * k) 1.0 <= Rmin (b * k) 1.0).
  { intros k Hk. split.
    - apply Rmin_glb; nra.
    - apply Rle_min_compat_r. nra. }
  assert (Hmax : forall k, Rmax 0.0 (a - k) <= Rmax 0.0 (b - k)).
  { intros k. apply Rle_max_compat_l. lra. }
  pose proof (smoothstep_bounds 0.1 0.5 a).
  pose proof (smoothstep_bounds 0.4 0.8 a).
  pose proof (smoothstep_mono 0.1 0.5 a b ltac:(lra) Hm).
  pose proof (smoothstep_mono 0.4 0.8 a b ltac:(lra) Hm).
  pose proof (Hmin 3.0 ltac:(lra)). pose proof (Hmin 1.5 ltac:(lra)).
  pose proof (Hmin 0.5 ltac:(lra)).
  pose proof (Hmax 0.5). pose proof (Hmax 0.9).
  repeat split.
  - lra.
  - apply Rmult_le_compat; lra.
  - assert (Rmin (a * 0.5) 1.0 * smoothstep 0.4 0.8 a
            <= Rmin (b * 0.5) 1.0 * smoothstep 0.4 0.8 b)
      by (apply Rmult_le_compat; lra).
    lra.
Qed.

Lemma brightness_mono (s t : R) :
  s <= t -> brightness (blackbody s) <= brightness (blackbody t).
Proof.
  intros H. destruct (blackbody_mono s t H) as (Hr & Hg & Hb).
  unfold brightness. lra.
Qed.

(** The ramp is never blue-leaning: blue stays at or below red. *)
Lemma blackbody_blue_le_red (temp : R) :
  vz (blackbody temp) <= vx (blackbody temp).
Proof.
  unfold blackbody. cbv zeta. simpl.
  pose proof (clamp_bounds temp 0.0 1.0 ltac:(lra)) as Ht.
  set (t := clamp temp 0.0 1.0) in *.
  pose proof (smoothstep_bounds 0.4 0.8 t) as Hs.
  assert (Hb : Rmin (t * 0.5) 1.0 = t * 0.5) by (apply Rmin_left; lra).
  rewrite Hb.
  assert (t * 0.5 * smoothstep 0.4 0.8 t <= t * 0.5) by nra.
  assert (Rmax 0.0 (t - 0.9) <= Rmax 0.0 (t - 0.5))
    by (apply Rle_max_compat_l; lra).
  pose proof (Rmax_l 0.0 (t - 0.5)).
  destruct (Rle_dec (t * 3.0) 1.0).
  - rewrite Rmin_left by lra.
    assert (Rmax 0.0 (t - 0.9) = 0.0) by (apply Rmax_left; lra).
    lra.
  - rewrite Rmin_right by lra.
    assert (Rmax 0.0 (t - 0.9) <= 0.1).
    { apply Rmax_lub; lra. }
    lra.
Qed.

(** C8. The ramp clamps its argument to [[0,1]] and is black at [0]; its
    hottest colour, [blackbody 1 = (1.5, 1.0, 0.6)], has red as the
    largest channel and blue as the smallest, and at no temperature does
    blue exceed red: the hot end of the ramp is not blue-white. *)
Theorem blackbody_hottest_is_red_dominant :
  (forall temp, blackbody temp = blackbody (clamp temp 0 1))
  /\ blackbody 0 = mk3 0 0 0
  /\ blackbody 1 = mk3 1.5 1 0.6
  /\ vz (blackbody 1) < vy (blackbody 1) < vx (blackbody 1)
  /\ (forall temp, vz (blackbody temp) <= vx (blackbody temp)).
Proof.
  split; [exact blackbody_clamps |].
  split; [exact blackbody_cold |].
  split; [exact blackbody_hot |].
  split; [rewrite blackbody_hot; simpl; lra | exact blackbody_blue_le_red].
Qed.

End Blackbody.

(** ** Accumulators: colour and transmittance *)

Section Accumulators.

Variable u : Uniforms.

Lemma vle_refl (a : vec3) : vle a a.
Proof. unfold vle. lra. Qed.

Lemma vle_trans (a b c : vec3) : vle a b -> vle b c -> vle a c.
Proof. unfold vle. intros (?&?&?) (?&?&?). lra. Qed.

Lemma vle_vadd_nonneg (a d : vec3) : vle (splat3 0) d -> vle a (vadd a d).
Proof. unfold vle, vadd, splat3; simpl. intros (?&?&?). lra. Qed.

Lemma vscale_nonneg (a : vec3) (s : R) :
  vle (splat3 0) a -> 0 <= s -> vle (splat3 0) (vscale a s).
Proof.
  unfold vle, vscale, splat3; simpl. intros (?&?&?) Hs.
  repeat split; apply Rmult_le_pos; assumption.
Qed.

Lemma contributes_spec (st : Ray) :
  contributes u st = true
  <-> beta_sq u (pos st) < 0.99 /\ density u (pos st) > 0.05.
Proof.
  unfold contributes. rewrite andb_true_iff, ltb_lt, gtb_gt. tauto.
Qed.

(** The disk body in one equation: the colour gains
    [emission * alpha * transmittance], with the transmittance before the
    update, and the transmittance is multiplied by [1 - alpha]. *)
Lemma disk_shade_eq (st : Ray) :
  disk_shade u st =
  if contributes u st then
    (vadd (color st)
          (vscale (vscale (emission u (pos st) (shift u st)) (alpha u st))
                  (transmittance st)),
     transmittance st * (1 - alpha u st))
  else (color st, transmittance st).
Proof.
  unfold disk_shade, contributes.
  destruct (beta_sq u (pos st) <? 0.99); simpl; [| reflexivity].
  destruct (density u (pos st) >? 0.05); [| reflexivity].
  f_equal. f_equal. lra.
Qed.

Lemma alpha_bounds (st : Ray) :
  density u (pos st) > 0.05 -> 0 < alpha u st < 1.
Proof.
  intros Hd. unfold alpha. cbv zeta.
  pose proof (Rmax_l 0.01 (step_dist st)) as Hseg.
  set (seg := Rmax 0.01 (step_dist st)) in *.
  assert (Hneg : - density u (pos st) * seg * 2.0 < 0) by nra.
  pose proof (exp_pos (- density u (pos st) * seg * 2.0)).
  pose proof (exp_increasing _ _ Hneg) as Hlt. rewrite exp_0 in Hlt.
  lra.
Qed.

Lemma emission_nonneg (p : vec3) (sh : R) :
  0 <= disk_intensity u -> density u p > 0.05 ->
  vle (splat3 0) (emission u p sh).
Proof.
  intros Hi Hd. unfold emission. cbv zeta.
  apply vscale_nonneg; [| lra].
  apply vscale_nonneg; [apply blackbody_nonneg |].
  pose proof (pow_nonneg (accretion_min u / sqrt (dot p p)) 1.5).
  pose proof (pow_nonneg sh 4.0).
  apply Rmult_le_pos; [| exact Hi].
  apply Rmult_le_pos; [| assumption].
  apply Rmult_le_pos; [lra | assumption].
Qed.

Lemma disk_shade_transmittance (st : Ray) :
  0 <= transmittance st ->
  0 <= snd (disk_shade u st) <= transmittance st.
Proof.
  intros Ht. rewrite disk_shade_eq.
  destruct (contributes u st) eqn:Hc; simpl; [| lra].
  apply contributes_spec in Hc. destruct Hc as [_ Hd].
  pose proof (alpha_bounds st Hd). split; nra.
Qed.

Lemma disk_shade_color (st : Ray) :
  0 <= disk_intensity u -> 0 <= transmittance st ->
  vle (color st) (fst (disk_shade u st)).
Proof.
  intros Hi Ht. rewrite disk_shade_eq.
  destruct (contributes u st) eqn:Hc; simpl; [| apply vle_refl].
  apply contributes_spec in Hc. destruct Hc as [_ Hd].
  pose proof (alpha_bounds st Hd).
  apply vle_vadd_nonneg. apply vscale_nonneg; [| exact Ht].
  apply vscale_nonneg; [| lra].
  apply emission_nonneg; assumption.
Qed.

Lemma march_step_acc (st : Ray) :
  (color (snd (march_step u st)), transmittance (snd (march_step u st)))
  = step_acc u st.
Proof.
  unfold march_step, step_acc. cbv zeta.
  destruct (sqrt (dot (pos st) (pos st)) <? horizon_r u); [reflexivity |].
  destruct (if in_disk u (transmittance st) (pos st)
            then disk_shade u st else (color st, transmittance st))
    as [c t].
  destruct (t <? 0.01); [reflexivity |].
  destruct (sqrt (dot (pos st) (pos st)) >? 30.0); reflexivity.
Qed.

Lemma march_step_transmittance (st : Ray) :
  0 <= transmittance st ->
  0 <= transmittance (snd (march_step u st)) <= transmittance st.
Proof.
  intros Ht.
  change (transmittance (snd (march_step u st)))
    with (snd (color (snd (march_step u st)),
               transmittance (snd (march_step u st)))).
  rewrite march_step_acc. unfold step_acc.
  destruct (_ <? horizon_r u); [simpl; lra |].
  destruct (in_disk _ _ _); [apply disk_shade_transmittance; exact Ht |].
  simpl; lra.
Qed.

Lemma march_step_color (st : Ray) :
  0 <= disk_intensity u -> 0 <= transmittance st ->
  vle (color st) (color (snd (march_step u st))).
Proof.
  intros Hi Ht.
  change (color (snd (march_step u st)))
    with (fst (color (snd (march_step u st)),
               transmittance (snd (march_step u st)))).
  rewrite march_step_acc. unfold step_acc.
  destruct (_ <? horizon_r u).
  - simpl. unfold vle, vadd, vscale, splat3; simpl. lra.
  - destruct (in_disk _ _ _); [apply disk_shade_color; assumption |].
    simpl. apply vle_refl.
Qed.

Lemma march_step_not_limit (st : Ray) : fst (march_step u st) <> StepLimit.
Proof.
  unfold march_step. cbv zeta.
  destruct (_ <? horizon_r u); [simpl; discriminate |].
  destruct (if in_disk u (transmittance st) (pos st)
            then disk_shade u st else (color st, transmittance st))
    as [c t].
  destruct (t <? 0.01); [simpl; discriminate |].
  destruct (_ >? 30.0); simpl; discriminate.
Qed.

(** Unfolding the loop at its last iteration. *)
Lemma march_loop_last (n : nat) (st : Ray) :
  march_loop u (S n) st =
  match march_loop u n st with
  | (StepLimit, st') =>
      match march_step u st' with
      | (Marching, st'') => (StepLimit, st'')
      | done => done
      end
  | done => done
  end.
Proof.
  revert st. induction n as [| n IH]; intros st.
  - simpl. destruct (march_step u st) as [[] st']; reflexivity.
  - change (march_loop u (S (S n)) st)
      with (match march_step u st with
            | (Marching, st') => march_loop u (S n) st'
            | done => done
            end).
    change (march_loop u (S n) st)
      with (match march_step u st with
            | (Marching, st') => march_loop u n st'
            | done => done
            end).
    pose proof (march_step_not_limit st) as Hn.
    destruct (march_step u st) as [[] st']; simpl in Hn;
      try reflexivity; try congruence.
    apply IH.
Qed.

(** From one iteration count to the next the accumulators either stay
    (the loop has already left) or are those of one more iteration. *)
Lemma after_S (n : nat) (st : Ray) :
  after u (S n) st = after u n st
  \/ after u (S n) st = snd (march_step u (after u n st)).
Proof.
  unfold after. rewrite march_loop_last.
  destruct (march_loop u n st) as [[] st']; simpl; auto.
  destruct (march_step u st') as [[] st'']; simpl; auto.
Qed.

Lemma after_transmittance_range (n : nat) (st : Ray) :
  0 <= transmittance st <= 1 -> 0 <= transmittance (after u n st) <= 1.
Proof.
  intros Hst. induction n as [| n IH]; [exact Hst |].
  destruct (after_S n st) as [E | E]; rewrite E; [exact IH |].
  pose proof (march_step_transmittance (after u n st) (proj1 IH)). lra.
Qed.

Lemma after_transmittance_mono (n m : nat) (st : Ray) :
  0 <= transmittance st <= 1 -> (n <= m)%nat ->
  transmittance (after u m st) <= transmittance (after u n st).
Proof.
  intros Hst Hnm. induction Hnm as [| m Hnm IH]; [lra |].
  pose proof (after_transmittance_range m st Hst) as Hr.
  destruct (after_S m st) as [E | E]; rewrite E; [exact IH |].
  pose proof (march_step_transmittance (after u m st) (proj1 Hr)). lra.
Qed.

Lemma after_color_mono (n m : nat) (st : Ray) :
  0 <= disk_intensity u -> 0 <= transmittance st <= 1 -> (n <= m)%nat ->
  vle (color (after u n st)) (color (after u m st)).
Proof.
  intros Hi Hst Hnm. induction Hnm as [| m Hnm IH]; [apply vle_refl |].
  pose proof (after_transmittance_range m st Hst) as Hr.
  destruct (after_S m st) as [E | E]; rewrite E; [exact IH |].
  eapply vle_trans; [exact IH |].
  apply march_step_color; [exact Hi | exact (proj1 Hr)].
Qed.

End Accumulators.

(** ** The event horizon *)

Section Absorption.

Lemma absorbed_step (u : Uniforms) (st : Ray) :
  length (pos st) < horizon_r u ->
  march_step u st =
  (Absorbed,
   mkRay (pos st) (vel st)
         (vadd (color st) (vscale (splat3 0.0) (transmittance st)))
         0.0 (step_dist st)).
Proof.
  intros H. unfold march_step. cbv zeta.
  apply ltb_lt in H. unfold length in H. rewrite H. reflexivity.
Qed.

Lemma absorbed_color :
  vadd (splat3 0.0) (vscale (splat3 0.0) 1.0) = mk3 0 0 0.
Proof. unfold vadd, vscale, splat3; simpl. f_equal; lra. Qed.

Lemma absorbed_march (u : Uniforms) (ro rd : vec3) :
  length ro < horizon_r u ->
  march_step u (init_ray ro rd) = (Absorbed, mkRay ro rd (mk3 0 0 0) 0 0)
  /\ march u (init_ray ro rd) = (Absorbed, mkRay ro rd (mk3 0 0 0) 0 0).
Proof.
  intros H.
  assert (E : march_step u (init_ray ro rd)
              = (Absorbed, mkRay ro rd (mk3 0 0 0) 0 0)).
  { rewrite absorbed_step by exact H. simpl.
    rewrite absorbed_color. replace 0.0 with 0 by lra. reflexivity. }
  split; [exact E |].
  unfold march, max_steps.
  change (march_loop u 120 (init_ray ro rd))
    with (match march_step u (init_ray ro rd) with
          | (Marching, st') => march_loop u 119 st'
          | done => done
          end).
  rewrite E. reflexivity.
Qed.

Lemma no_background_when_opaque (u : Uniforms) (st : Ray) :
  transmittance st = 0 -> add_background u st = color st.
Proof.
  intros H. unfold add_background. rewrite H.
  assert (G : (0 >? 0.0) = false) by (apply gtb_le; lra).
  rewrite G. reflexivity.
Qed.

(** C2. A ray that starts inside the horizon leaves the loop at its first
    iteration through the horizon [break]: the accumulated colour is
    [(0,0,0)], the transmittance is [0], and the background stage adds
    nothing, so the colour handed to the tone mapper is [(0,0,0)]. *)
Theorem absorbed_at_start (u : Uniforms) (ro rd : vec3) :
  length ro < horizon_r u ->
  march_step u (init_ray ro rd) = (Absorbed, mkRay ro rd (mk3 0 0 0) 0 0)
  /\ march u (init_ray ro rd) = (Absorbed, mkRay ro rd (mk3 0 0 0) 0 0)
  /\ add_background u (snd (march u (init_ray ro rd))) = mk3 0 0 0.
Proof.
  intros H. destruct (absorbed_march u ro rd H) as [E E'].
  split; [exact E |]. split; [exact E' |].
  rewrite E'. apply no_background_when_opaque. reflexivity.
Qed.

Lemma absorbed_at_start_witness :
  march (frame 0 1 (mk3 1 0 0) (mk3 1 0 0))
        (init_ray (mk3 1 0 0) (mk3 1 0 0))
  = (Absorbed, mkRay (mk3 1 0 0) (mk3 1 0 0) (mk3 0 0 0) 0 0).
Proof.
  apply (absorbed_at_start (frame 0 1 (mk3 1 0 0) (mk3 1 0 0))).
  pose proof (horizon_r_bounds (frame 0 1 (mk3 1 0 0) (mk3 1 0 0))).
  unfold length, dot; simpl.
  replace (1 * 1 + 0 * 0 + 0 * 0) with 1 by ring. rewrite sqrt_1. lra.
Defined.

(** The same for the pixel: a camera inside the horizon. *)
Corollary camera_inside_horizon (u : Uniforms) (uv : vec2) :
  length (camera_pos u) < horizon_r u ->
  fst (integrate u uv) = Absorbed /\ radiance u uv = mk3 0 0 0.
Proof.
  intros H. unfold radiance, integrate, ray_origin.
  destruct (absorbed_march u (camera_pos u) (ray_direction u uv) H)
    as (_ & E).
  rewrite E. split; [reflexivity |].
  apply no_background_when_opaque. reflexivity.
Qed.

End Absorption.

(** ** The disk trigger *)

Section DiskTrigger.

Lemma disk_h_eq (r : R) : disk_h r = 0.05 + 0.001 * (r * r).
Proof. unfold disk_h. lra. Qed.

Lemma isco_ge_3 (u : Uniforms) : 3 <= isco u.
Proof.
  unfold isco. pose proof (sqrt_pos (3.0 * (3.0 - 2.0 * spin_a u))). lra.
Qed.

Lemma accretion_min_above_horizon (u : Uniforms) :
  horizon_r u < accretion_min u.
Proof.
  pose proof (horizon_r_bounds u). pose proof (isco_ge_3 u).
  unfold accretion_min. lra.
Qed.

Lemma in_disk_iff (u : Uniforms) (t : R) (p : vec3) :
  in_disk u t p = true
  <-> t > 0.01
      /\ accretion_min u < sqrt (dot p p) /\ sqrt (dot p p) < accretion_max
      /\ Rabs (vy p) < 0.05 + 0.001 * (sqrt (dot p p) * sqrt (dot p p)).
Proof.
  unfold in_disk. cbv zeta.
  rewrite !andb_true_iff, !gtb_gt, !ltb_lt, disk_h_eq. intuition lra.
Qed.

Lemma frame_isco_spin0 (l : R) (c d : vec3) : isco (frame 0 l c d) = 6.
Proof.
  unfold isco, spin_a, frame; simpl.
  rewrite clamp_id by lra.
  replace (3.0 * (3.0 - 2.0 * 0)) with (3 * 3) by lra.
  rewrite sqrt_square by lra. lra.
Qed.

Lemma length_on_x_axis (x : R) :
  0 <= x -> sqrt (dot (mk3 x 0 0) (mk3 x 0 0)) = x.
Proof.
  intros Hx. unfold dot; simpl.
  replace (x * x + 0 * 0 + 0 * 0) with (x * x) by ring.
  apply sqrt_square. exact Hx.
Qed.

(** At the outer rim, [r = 12], the trigger as the specification words it
    holds, and the shader is not invoked. *)
Lemma disk_trigger_rim_excluded :
  let u := frame 0 1 (mk3 0 1.5 (-6)) (mk3 0 0 1) in
  spec_trigger u 1 (mk3 12 0 0) /\ in_disk u 1 (mk3 12 0 0) = false.
Proof.
  intros u. split.
  - unfold spec_trigger. cbv zeta. rewrite length_on_x_axis by lra.
    unfold accretion_min, accretion_max, u. rewrite frame_isco_spin0.
    simpl. rewrite Rabs_R0. lra.
  - unfold in_disk. cbv zeta. rewrite length_on_x_axis by lra.
    assert (E : (12 <? accretion_max) = false)
      by (apply ltb_ge; unfold accretion_max; lra).
    rewrite E. rewrite andb_false_r. reflexivity.
Qed.

End DiskTrigger.

(** ** Noise and density bounds *)

Section Noise.

Lemma hash_bounds (p : vec2) : 0 <= hash p <= 1.
Proof.
  unfold hash.
  pose proof (fract_bounds (sin (dot2 p (mk2 12.9898 78.233)) * 43758.5453)).
  lra.
Qed.

Lemma noise_bounds (x : vec2) : 0 <= noise x <= 1.
Proof.
  unfold noise. cbv zeta.
  assert (Hu : forall f, 0 <= f < 1 -> 0 <= f * f * (3.0 - f * 2.0) <= 1).
  { intros f Hf. replace (3.0 - f * 2.0) with (3 - 2 * f) by lra.
    apply hermite_bounds. lra. }
  pose proof (Hu _ (fract_bounds (x2 x))).
  pose proof (Hu _ (fract_bounds (y2 x))).
  apply mix_bounds; [apply mix_bounds | apply mix_bounds |];
    try apply hash_bounds; simpl; assumption.
Qed.

Lemma fbm_loop_bounds (n : nat) (v a : R) (pp : vec2) :
  0 <= a -> v <= fbm_loop n v a pp <= v + 2 * a.
Proof.
  revert v a pp. induction n as [| n IH]; intros v a pp Ha; simpl.
  - lra.
  - pose proof (noise_bounds pp) as Hn.
    specialize (IH (v + a * noise pp) (a * 0.5)
                   (add2 (scale2 (rot pp) 2.0) (splat2 100.0))
                   ltac:(lra)).
    nra.
Qed.

Lemma fbm_bounds (p : vec2) : 0 <= fbm p <= 1.
Proof.
  unfold fbm. pose proof (fbm_loop_bounds 5 0.0 0.5 p ltac:(lra)). lra.
Qed.

(** The density is at most the inner radial ramp. *)
Lemma density_le_inner_ramp (u : Uniforms) (p : vec3) :
  0 <= density u p
  <= smoothstep (accretion_min u) (accretion_min u + 1.0) (sqrt (dot p p)).
Proof.
  unfold density. cbv zeta.
  set (r := sqrt (dot p p)).
  match goal with
  | |- 0 <= (fbm ?a * 0.7 + fbm ?b * 0.3) * ?vf * (?s1 * ?s2) <= _ =>
      pose proof (fbm_bounds a); pose proof (fbm_bounds b);
      set (na := fbm a) in *; set (nb := fbm b) in *;
      assert (Hvf : 0 <= vf <= 1) by apply smoothstep_bounds;
      assert (Hs1 : 0 <= s1 <= 1) by apply smoothstep_bounds;
      assert (Hs2 : 0 <= s2 <= 1) by apply smoothstep_bounds;
      set (f := vf) in *; set (a1 := s1) in *; set (a2 := s2) in *
  end.
  assert (Hn : 0 <= na * 0.7 + nb * 0.3 <= 1) by lra.
  set (k := na * 0.7 + nb * 0.3) in *.
  assert (0 <= k * f <= 1) by (split; nra).
  assert (0 <= a1 * a2 <= a1) by (split; nra).
  split; nra.
Qed.

End Noise.

(** ** Disk samples without emission *)

Section NoEmission.

(** C10. In an iteration whose position passes the disk trigger, a sample
    with density at most [0.05], or with gas speed [beta^2 >= 0.99],
    leaves the accumulated colour and the transmittance as they were. *)
Theorem disk_sample_without_emission (u : Uniforms) (st : Ray) :
  in_disk u (transmittance st) (pos st) = true ->
  density u (pos st) <= 0.05 \/ beta_sq u (pos st) >= 0.99 ->
  color (snd (march_step u st)) = color st
  /\ transmittance (snd (march_step u st)) = transmittance st.
Proof.
  intros Hin Hgate.
  assert (E : step_acc u st = (color st, transmittance st)).
  { unfold step_acc.
    pose proof (in_disk_iff u (transmittance st) (pos st)) as Ht.
    apply Ht in Hin. destruct Hin as (Htr & Hmin & Hmax & Hy).
    pose proof (accretion_min_above_horizon u) as Hh.
    assert (F : (sqrt (dot (pos st) (pos st)) <? horizon_r u) = false)
      by (apply ltb_ge; lra).
    rewrite F.
    assert (G : in_disk u (transmittance st) (pos st) = true)
      by (apply Ht; tauto).
    rewrite G, disk_shade_eq.
    assert (C : contributes u st = false).
    { unfold contributes. apply andb_false_iff.
      destruct Hgate as [Hd | Hb].
      - right. apply gtb_le. exact Hd.
      - left. apply ltb_ge. lra. }
    rewrite C. reflexivity. }
  rewrite <- march_step_acc in E. inversion E as [[Ec Et]].
  rewrite Ec, Et. split; reflexivity.
Qed.

(** A sample just inside the inner edge of the disk of a non-spinning
    hole: the radial ramp keeps the density below the threshold. *)
Lemma disk_sample_without_emission_witness :
  let u := frame 0 1 (mk3 0 1.5 (-6)) (mk3 0 0 1) in
  let st := mkRay (mk3 5.5 0 0) (mk3 0 0 1) (mk3 0.2 0.1 0) 0.8 0.1 in
  color (snd (march_step u st)) = mk3 0.2 0.1 0
  /\ transmittance (snd (march_step u st)) = 0.8.
Proof.
  intros u st.
  assert (Hmin : accretion_min u = 5.4).
  { unfold accretion_min, u. rewrite frame_isco_spin0. lra. }
  apply (disk_sample_without_emission u st).
  - apply in_disk_iff.
    simpl pos. simpl transmittance. rewrite length_on_x_axis by lra.
    rewrite Hmin. unfold accretion_max. simpl. rewrite Rabs_R0. lra.
  - left. simpl pos.
    pose proof (density_le_inner_ramp u (mk3 5.5 0 0)) as [_ Hd].
    rewrite length_on_x_axis in Hd by lra. rewrite Hmin in Hd.
    unfold smoothstep in Hd.
    replace ((5.5 - 5.4) / (5.4 + 1.0 - 5.4)) with 0.1 in Hd by lra.
    rewrite clamp_id in Hd by lra. lra.
Defined.

End NoEmission.

(** ** Gas kinematics *)

Section Kinematics.

Lemma pow_pos (x y : R) : 0 < x -> 0 < pow x y.
Proof.
  intros Hx. unfold pow. destruct (Rlt_dec 0 x); [| contradiction].
  unfold Rpower. apply exp_pos.
Qed.

Lemma omega_space_pos (u : Uniforms) (p : vec3) :
  0 < spin u -> 0 < dot p p -> 0 < omega_space u p.
Proof.
  intros Hs Hp. unfold omega_space. cbv zeta.
  assert (Ha : 0 < spin_a u).
  { unfold spin_a, clamp. apply Rmin_glb_lt; [| lra].
    eapply Rlt_le_trans; [exact Hs | apply Rmax_l]. }
  assert (Hr : 0 < sqrt (dot p p)) by (apply sqrt_lt_R0; exact Hp).
  assert (Hq : 0 < pow (dot p p + spin_a u * spin_a u) 2.0)
    by (apply pow_pos; nra).
  apply Rdiv_lt_0_compat; [| exact Hq].
  apply Rmult_lt_0_compat; [| exact Hr]. lra.
Qed.

(** C7. The gas velocity of a disk sample is the tangent [(-z, 0, x)]
    times the Keplerian angular velocity [1 / (r^1.5 + a)], with [a] the
    kernel's spin (the input clamped to [[0, 0.99]], the input itself when
    it lies there).  The frame-dragging angular velocity is not part of
    it: for a spinning hole and a sample off the axis the velocity differs
    from the one the sum of both angular velocities would give. *)
Theorem gas_velocity_keplerian (u : Uniforms) (p : vec3) :
  let r := sqrt (dot p p) in
  let tangent := mk3 (- vz p) 0 (vx p) in
  vel_gas u p = vscale tangent (1 / (pow r 1.5 + clamp (spin u) 0 0.99))
  /\ (0 <= spin u <= 0.99 ->
      vel_gas u p = vscale tangent (1 / (pow r 1.5 + spin u)))
  /\ (0 < spin u -> vx p <> 0 \/ vz p <> 0 ->
      vel_gas u p
      <> vscale tangent (omega_kepler u p + omega_space u p)).
Proof.
  intros r tangent.
  assert (E : vel_gas u p
              = vscale tangent (1 / (pow r 1.5 + clamp (spin u) 0 0.99))).
  { unfold vel_gas, omega_kepler, spin_a, tangent, r. cbv zeta.
    replace 0.0 with 0 by lra. replace 1.0 with 1 by lra. reflexivity. }
  split; [exact E |]. split.
  - intros Hs. rewrite E, clamp_id by exact Hs. reflexivity.
  - intros Hs Hp Heq.
    assert (Hd : 0 < dot p p).
    { unfold dot. destruct Hp as [Hx | Hz]; nra. }
    pose proof (omega_space_pos u p Hs Hd) as Hw.
    unfold vel_gas in Heq. cbv zeta in Heq.
    unfold vscale, tangent in Heq. simpl in Heq.
    inversion Heq as [[Hx Hy Hz]].
    destruct Hp as [Hp | Hp]; nra.
Qed.

Lemma gas_velocity_keplerian_witness :
  let u := frame 0.9 1 (mk3 0 1.5 (-6)) (mk3 0 0 1) in
  let p := mk3 6 0 0 in
  vel_gas u p = vscale (mk3 (-0) 0 6) (1 / (pow (sqrt (dot p p)) 1.5 + 0.9))
  /\ vel_gas u p
     <> vscale (mk3 (-0) 0 6) (omega_kepler u p + omega_space u p).
Proof.
  intros u p.
  destruct (gas_velocity_keplerian u p) as (_ & H1 & H2).
  split.
  - apply H1. simpl. lra.
  - apply H2; [simpl; lra | left; simpl; lra].
Defined.

End Kinematics.

(** ** Straight rays: lensing disabled *)

Section StraightRays.

Variable u : Uniforms.
Hypothesis lensing_off : lensing_enabled u <= 0.5.

Lemma vadd_zero (p v : vec3) : vadd p (vscale v 0) = p.
Proof. destruct p, v. unfold vadd, vscale; simpl. f_equal; ring. Qed.

Lemma vadd_vscale_assoc (p v : vec3) (a b : R) :
  vadd (vadd p (vscale v a)) (vscale v b) = vadd p (vscale v (a + b)).
Proof. unfold vadd, vscale; simpl. f_equal; ring. Qed.

(** One iteration leaves the velocity alone, and moves the position along
    it by the step size unless a [break] comes first. *)
Lemma straight_step (st : Ray) :
  let '(s, st') := march_step u st in
  vel st' = vel st
  /\ match s with
     | Marching | Escaped =>
         pos st' = vadd (pos st) (vscale (vel st) (step_dist st'))
     | _ => pos st' = pos st
     end.
Proof.
  unfold march_step. cbv zeta.
  destruct (_ <? horizon_r u); [simpl; auto |].
  destruct (if in_disk u (transmittance st) (pos st)
            then disk_shade u st else (color st, transmittance st))
    as [c t].
  destruct (t <? 0.01); [simpl; auto |].
  assert (L : (lensing_enabled u >? 0.5) = false)
    by (apply gtb_le; exact lensing_off).
  rewrite L.
  destruct (_ >? 30.0); simpl; auto.
Qed.

Lemma after_unfold (n : nat) (st : Ray) :
  after u (S n) st =
  match march_step u st with
  | (Marching, st') => after u n st'
  | (_, st') => st'
  end.
Proof.
  unfold after. simpl.
  destruct (march_step u st) as [[] st']; reflexivity.
Qed.

(** The trajectory is the straight line through the start along the
    initial velocity, at the accumulated path length. *)
Lemma straight_line (n : nat) (st : Ray) :
  vel (after u n st) = vel st
  /\ pos (after u n st)
     = vadd (pos st) (vscale (vel st) (path_length u n st)).
Proof.
  revert st. induction n as [| n IH]; intros st.
  - unfold after; simpl. split; [reflexivity |].
    symmetry. apply vadd_zero.
  - rewrite after_unfold. simpl path_length.
    pose proof (straight_step st) as Hs.
    destruct (march_step u st) as [s st'].
    destruct Hs as [Hv Hp].
    destruct s.
    + destruct (IH st') as [IHv IHp].
      split; [congruence |].
      rewrite IHp, Hv, Hp, vadd_vscale_assoc. reflexivity.
    + split; [exact Hv |]. rewrite Hp. symmetry. apply vadd_zero.
    + split; [exact Hv |]. rewrite Hp. symmetry. apply vadd_zero.
    + split; [exact Hv | exact Hp].
    + split; [exact Hv |]. rewrite Hp. symmetry. apply vadd_zero.
Qed.

(** *** A ray leaving radially from [r >= 12] *)

Variable d : vec3.
Hypothesis unit_d : dot d d = 1.

Lemma radial_length (c : R) :
  0 <= c -> sqrt (dot (vscale d c) (vscale d c)) = c.
Proof.
  intros Hc.
  replace (dot (vscale d c) (vscale d c)) with (c * c * dot d d)
    by (unfold dot, vscale; simpl; ring).
  rewrite unit_d, Rmult_1_r. apply sqrt_square. exact Hc.
Qed.

Lemma radial_step (c t sd : R) (col : vec3) :
  12 <= c -> 0.01 <= t ->
  march_step u (mkRay (vscale d c) d col t sd)
  = (if c >? 30.0 then Escaped else Marching,
     mkRay (vscale d (c + 0.5)) d col t 0.5).
Proof.
  intros Hc Ht. unfold march_step. cbv zeta. simpl pos. simpl vel.
  simpl transmittance. simpl color. simpl step_dist.
  rewrite radial_length by lra.
  pose proof (horizon_r_bounds u) as Hh.
  assert (E1 : (c <? horizon_r u) = false) by (apply ltb_ge; lra).
  rewrite E1.
  assert (E2 : in_disk u t (vscale d c) = false).
  { unfold in_disk. cbv zeta. rewrite radial_length by lra.
    assert (E : (c <? accretion_max) = false)
      by (apply ltb_ge; unfold accretion_max; lra).
    rewrite E. rewrite andb_false_r. reflexivity. }
  rewrite E2.
  assert (E3 : (t <? 0.01) = false) by (apply ltb_ge; lra).
  rewrite E3.
  assert (L : (lensing_enabled u >? 0.5) = false)
    by (apply gtb_le; exact lensing_off).
  rewrite L.
  rewrite (clamp_high (0.05 * (c - horizon_r u))) by lra.
  replace (vadd (vscale d c) (vscale d 0.5)) with (vscale d (c + 0.5))
    by (unfold vadd, vscale; simpl; f_equal; ring).
  destruct (c >? 30.0); reflexivity.
Qed.

Lemma radial_loop (k fuel : nat) (c t sd : R) (col : vec3) :
  12 <= c -> 0.01 <= t -> c + 0.5 * INR k <= 30.5 ->
  march_loop u (S k + fuel) (mkRay (vscale d c) d col t sd)
  = march_loop u (S fuel) (mkRay (vscale d (c + 0.5 * INR k)) d col t
                                 (if Nat.eqb k 0 then sd else 0.5)).
Proof.
  revert c sd. induction k as [| k IH]; intros c sd Hc Ht Hk.
  - simpl INR. replace (c + 0.5 * 0) with c by ring. reflexivity.
  - rewrite S_INR in Hk.
    change (march_loop u (S (S k) + fuel) (mkRay (vscale d c) d col t sd))
      with (match march_step u (mkRay (vscale d c) d col t sd) with
            | (Marching, st') => march_loop u (S k + fuel) st'
            | done => done
            end).
    rewrite radial_step by assumption.
    pose proof (pos_INR k).
    assert (E : (c >? 30.0) = false) by (apply gtb_le; lra).
    rewrite E. rewrite IH by lra.
    rewrite S_INR.
    replace (c + 0.5 + 0.5 * INR k) with (c + 0.5 * (INR k + 1)) by ring.
    simpl Nat.eqb. destruct (Nat.eqb k 0); reflexivity.
Qed.

Lemma radial_march :
  march u (init_ray (vscale d 25) d)
  = (Escaped, mkRay (vscale d 31) d (splat3 0.0) 1.0 0.5).
Proof.
  unfold march, max_steps, init_ray.
  change 120%nat with (S 11 + 108)%nat.
  rewrite radial_loop by (simpl; lra).
  change (march_loop u (S 108) ?st)
    with (match march_step u st with
          | (Marching, st') => march_loop u 108 st'
          | done => done
          end).
  rewrite radial_step by (simpl; lra).
  assert (E : (25 + 0.5 * INR 11 >? 30.0) = true)
    by (apply gtb_gt; simpl; lra).
  rewrite E. do 2 f_equal. f_equal. simpl. lra.
Qed.

End StraightRays.

(** C5. With lensing disabled, a ray that starts at radius [25] and moves
    straight away from the origin leaves the loop through the escape
    [break], at a radius above [30]; its velocity is never changed, and
    after any number of steps its position is the origin of the ray plus
    the velocity times the path length accumulated so far. *)
Theorem outward_ray_escapes (u : Uniforms) (d : vec3) :
  lensing_enabled u <= 0.5 -> dot d d = 1 ->
  let st0 := init_ray (vscale d 25) d in
  length (pos st0) = 25
  /\ fst (march u st0) = Escaped
  /\ length (pos (snd (march u st0))) > 30
  /\ forall n,
       vel (after u n st0) = d
       /\ pos (after u n st0)
          = vadd (vscale d 25) (vscale d (path_length u n st0)).
Proof.
  intros Hl Hd st0. unfold st0.
  split; [| split; [| split]].
  - unfold length. simpl pos. apply radial_length; [exact Hd | lra].
  - rewrite radial_march by assumption. reflexivity.
  - rewrite radial_march by assumption. unfold length. simpl pos.
    rewrite radial_length; [lra | exact Hd | lra].
  - intros n. exact (straight_line u Hl n (init_ray (vscale d 25) d)).
Qed.

Lemma outward_ray_escapes_witness :
  let u := frame 0.9 0 (mk3 25 0 0) (mk3 1 0 0) in
  fst (march u (init_ray (vscale (mk3 1 0 0) 25) (mk3 1 0 0))) = Escaped.
Proof.
  intros u.
  apply (outward_ray_escapes u (mk3 1 0 0)).
  - simpl. lra.
  - unfold dot; simpl. ring.
Defined.

(** ** The spin input and its clamp *)

(** Two frames that agree on everything the kernel reads except, possibly,
  the raw spin: same clamped spin and the same spin force. *)
Section SpinAgreement.

Variables u u' : Uniforms.
Hypothesis same_time : time u = time u'.
Hypothesis same_intensity : disk_intensity u = disk_intensity u'.
Hypothesis same_lensing :
  (lensing_enabled u >? 0.5) = (lensing_enabled u' >? 0.5).
Hypothesis same_resolution : resolution u = resolution u'.
Hypothesis same_camera_pos : camera_pos u = camera_pos u'.
Hypothesis same_camera_dir : camera_dir u = camera_dir u'.
Hypothesis same_spin_a : spin_a u = spin_a u'.
Hypothesis same_force : forall p v, acc_spin u p v = acc_spin u' p v.

Lemma agree_horizon_r : horizon_r u = horizon_r u'.
Proof. unfold horizon_r. rewrite same_spin_a. reflexivity. Qed.

Lemma agree_accretion_min : accretion_min u = accretion_min u'.
Proof. unfold accretion_min, isco. rewrite same_spin_a. reflexivity. Qed.

Lemma agree_in_disk (t : R) (p : vec3) : in_disk u t p = in_disk u' t p.
Proof. unfold in_disk. rewrite agree_accretion_min. reflexivity. Qed.

Lemma agree_omega_kepler (p : vec3) : omega_kepler u p = omega_kepler u' p.
Proof. unfold omega_kepler. rewrite same_spin_a. reflexivity. Qed.

Lemma agree_vel_gas (p : vec3) : vel_gas u p = vel_gas u' p.
Proof. unfold vel_gas. rewrite agree_omega_kepler. reflexivity. Qed.

Lemma agree_beta_sq (p : vec3) : beta_sq u p = beta_sq u' p.
Proof. unfold beta_sq. rewrite agree_vel_gas. reflexivity. Qed.

Lemma agree_shift (st : Ray) : shift u st = shift u' st.
Proof.
  unfold shift, cos_theta. rewrite agree_beta_sq, agree_vel_gas.
  reflexivity.
Qed.

Lemma agree_density (p : vec3) : density u p = density u' p.
Proof.
  unfold density.
  rewrite agree_omega_kepler, agree_accretion_min, same_time. reflexivity.
Qed.

Lemma agree_emission (p : vec3) (sh : R) : emission u p sh = emission u' p sh.
Proof.
  unfold emission.
  rewrite agree_density, agree_accretion_min, same_intensity. reflexivity.
Qed.

Lemma agree_alpha (st : Ray) : alpha u st = alpha u' st.
Proof. unfold alpha. rewrite agree_density. reflexivity. Qed.

Lemma agree_disk_shade (st : Ray) : disk_shade u st = disk_shade u' st.
Proof.
  unfold disk_shade.
  rewrite agree_beta_sq, agree_density, agree_emission, agree_shift,
    agree_alpha.
  reflexivity.
Qed.

Lemma agree_march_step (st : Ray) : march_step u st = march_step u' st.
Proof.
  unfold march_step.
  rewrite agree_horizon_r, agree_in_disk, agree_disk_shade, same_force,
    same_lensing.
  reflexivity.
Qed.

Lemma agree_march_loop (n : nat) (st : Ray) :
  march_loop u n st = march_loop u' n st.
Proof.
  revert st. induction n as [| n IH]; intros st; simpl; [reflexivity |].
  rewrite agree_march_step.
  destruct (march_step u' st) as [[] st']; try reflexivity. apply IH.
Qed.

Lemma agree_background (v : vec3) : background u v = background u' v.
Proof. unfold background. rewrite same_time. reflexivity. Qed.

Lemma agree_fs_main (uv : vec2) : fs_main u uv = fs_main u' uv.
Proof.
  unfold fs_main, radiance, integrate, march, ray_origin, ray_direction,
    add_background.
  rewrite same_camera_pos, same_camera_dir, same_resolution.
  rewrite agree_march_loop.
  destruct (transmittance _ >? 0.0); [rewrite agree_background |];
    reflexivity.
Qed.

End SpinAgreement.

Section SpinClamp.

Lemma set_spin_same (u : Uniforms) : set_spin u (spin u) = u.
Proof. destruct u. reflexivity. Qed.

Lemma acc_spin_off (u : Uniforms) (p v : vec3) :
  spin u <= 0.01 -> acc_spin u p v = splat3 0.0.
Proof.
  intros H. unfold acc_spin. cbv zeta.
  assert (E : (spin u >? 0.01) = false) by (apply gtb_le; exact H).
  rewrite E. reflexivity.
Qed.

(** For a spin input of at most [0.99] the pixel is the same as for the
    clamped input. *)
Lemma fs_main_clamped_spin (u : Uniforms) (uv : vec2) :
  spin u <= 0.99 ->
  fs_main u uv = fs_main (set_spin u (clamp (spin u) 0 0.99)) uv.
Proof.
  intros Hs. destruct (Rle_dec 0 (spin u)) as [H0 | H0].
  - rewrite clamp_id by lra. rewrite set_spin_same. reflexivity.
  - rewrite clamp_low by lra.
    apply agree_fs_main; try reflexivity.
    + unfold spin_a. simpl. rewrite !clamp_low by lra. reflexivity.
    + intros p v. rewrite !acc_spin_off by (simpl; lra). reflexivity.
Qed.

Lemma normalize_xz_ratio (k : R) :
  vx (normalize (mk3 k 0 1)) = k * vz (normalize (mk3 k 0 1))
  /\ vz (normalize (mk3 k 0 1)) <> 0.
Proof.
  unfold normalize, vdiv, length, dot. simpl.
  assert (L : 0 < sqrt (k * k + 0 * 0 + 1 * 1)) by (apply sqrt_lt_R0; nra).
  split.
  - field. lra.
  - unfold Rdiv. rewrite Rmult_1_l. apply Rinv_neq_0_compat. lra.
Qed.

(** The first step of a ray at [(13,0,0)] heading along [z], lensing on. *)
Lemma probe_step_velocity (s : R) :
  s > 0.01 ->
  vel (snd (march_step (frame s 1 (mk3 13 0 0) (mk3 0 0 1))
                       (init_ray (mk3 13 0 0) (mk3 0 0 1))))
  = normalize (mk3 (s * (169 / pow 13 5.0)) 0 1).
Proof.
  intros Hs. set (u := frame s 1 (mk3 13 0 0) (mk3 0 0 1)).
  unfold march_step, init_ray. cbv zeta.
  simpl pos. simpl vel. simpl transmittance. simpl color. simpl step_dist.
  rewrite length_on_x_axis by lra.
  pose proof (horizon_r_bounds u) as Hh.
  assert (E1 : (13 <? horizon_r u) = false) by (apply ltb_ge; lra).
  rewrite E1.
  assert (E2 : in_disk u 1.0 (mk3 13 0 0) = false).
  { unfold in_disk. cbv zeta. rewrite length_on_x_axis by lra.
    assert (E : (13 <? accretion_max) = false)
      by (apply ltb_ge; unfold accretion_max; lra).
    rewrite E. rewrite andb_false_r. reflexivity. }
  rewrite E2.
  assert (E3 : (1.0 <? 0.01) = false) by (apply ltb_ge; lra).
  rewrite E3.
  assert (L : (1 >? 0.5) = true) by (apply gtb_gt; lra).
  rewrite L.
  rewrite (clamp_high (0.05 * (13 - horizon_r u))) by lra.
  assert (E4 : (13 >? 30.0) = false) by (apply gtb_le; lra).
  rewrite E4. simpl snd. simpl vel.
  f_equal.
  unfold acc_schwarzschild, acc_spin. cbv zeta.
  rewrite length_on_x_axis by lra.
  simpl spin.
  assert (G : (s >? 0.01) = true) by (apply gtb_gt; lra).
  rewrite G.
  pose proof (pow_pos 13 5.0 ltac:(lra)) as HP.
  set (P := pow 13 5.0) in *.
  clearbody P.
  unfold vadd, vscale, vsub, vdiv, cross, dot, M, RS. simpl.
  replace 0.0 with 0 by lra. replace 1.0 with 1 by lra.
  replace 2.0 with 2 by lra. replace 3.0 with 3 by lra.
  replace 0.5 with (1 / 2) by lra. replace (-1.5) with (- (3 / 2)) by lra.
  f_equal; field; lra.
Qed.

(** C3, where it fails: at spin input [1.0] the spin force is computed
    from the raw input and not from its clamp [0.99], and the velocity
    after the first integration step differs between the two. *)
Theorem spin_force_ignores_clamp :
  let u := frame 1 1 (mk3 13 0 0) (mk3 0 0 1) in
  let u' := set_spin u (clamp (spin u) 0 0.99) in
  let st := init_ray (mk3 13 0 0) (mk3 0 0 1) in
  spin_a u = spin_a u'
  /\ vel (snd (march_step u st)) <> vel (snd (march_step u' st)).
Proof.
  intros u u' st.
  assert (Hc : clamp (spin u) 0 0.99 = 0.99)
    by (apply clamp_high; simpl; lra).
  split.
  - unfold u'. rewrite Hc. unfold spin_a. simpl.
    rewrite !clamp_high by lra. reflexivity.
  - unfold u'. rewrite Hc. unfold u, st, set_spin, frame. simpl.
    fold (frame 1 1 (mk3 13 0 0) (mk3 0 0 1)).
    fold (frame 0.99 1 (mk3 13 0 0) (mk3 0 0 1)).
    rewrite !probe_step_velocity by lra.
    pose proof (pow_pos 13 5.0 ltac:(lra)) as HP.
    set (P := pow 13 5.0) in *.
    intros Heq.
    destruct (normalize_xz_ratio (1 * (169 / P))) as [A1 A2].
    destruct (normalize_xz_ratio (0.99 * (169 / P))) as [B1 B2].
    rewrite Heq in A1, A2. rewrite B1 in A1.
    assert (Q : 0 < 169 / P) by (apply Rdiv_lt_0_compat; lra).
    apply Rmult_eq_reg_r in A1; [lra | exact A2].
Qed.

End SpinClamp.

(** ** Further facts about the disk sample and the background *)

Section DiskSample.

Variable u : Uniforms.

Lemma normalize_unit (v : vec3) :
  0 < dot v v -> dot (normalize v) (normalize v) = 1.
Proof.
  intros Hv. unfold normalize, length, vdiv.
  assert (Hs : 0 < sqrt (dot v v)) by (apply sqrt_lt_R0; exact Hv).
  assert (Hq : sqrt (dot v v) * sqrt (dot v v) = dot v v)
    by (apply sqrt_sqrt; lra).
  set (l := sqrt (dot v v)) in *.
  unfold dot in *. simpl.
  replace (vx v / l * (vx v / l) + vy v / l * (vy v / l)
           + vz v / l * (vz v / l))
    with ((vx v * vx v + vy v * vy v + vz v * vz v) / (l * l))
    by (field; lra).
  rewrite Hq. field. lra.
Qed.

Lemma dot_vneg_r (a b : vec3) : dot a (vneg b) = - dot a b.
Proof. unfold dot, vneg; simpl. ring. Qed.

Lemma vneg_involutive (a : vec3) : vneg (vneg a) = a.
Proof. destruct a. unfold vneg; simpl. f_equal; ring. Qed.

(** A photon travelling against the gas: the gas moves straight toward the
    observer. *)
Lemma cos_theta_toward (st : Ray) :
  0 < beta_sq u (pos st) ->
  normalize (vel st) = vneg (normalize (vel_gas u (pos st))) ->
  cos_theta u st = 1.
Proof.
  intros Hb Hv. unfold cos_theta. cbv zeta.
  rewrite Hv, vneg_involutive. apply normalize_unit. exact Hb.
Qed.

(** A photon travelling with the gas: the gas moves straight away. *)
Lemma cos_theta_away (st : Ray) :
  0 < beta_sq u (pos st) ->
  normalize (vel st) = normalize (vel_gas u (pos st)) ->
  cos_theta u st = -1.
Proof.
  intros Hb Hv. unfold cos_theta. cbv zeta.
  rewrite Hv, dot_vneg_r, normalize_unit by exact Hb. reflexivity.
Qed.

Lemma pow_three_halves_sqr (r : R) :
  0 < r -> pow r 1.5 * pow r 1.5 = r * r * r.
Proof.
  intros Hr. unfold pow. destruct (Rlt_dec 0 r); [| contradiction].
  rewrite <- Rpower_plus.
  replace (1.5 + 1.5) with (INR 3) by (simpl; lra).
  rewrite Rpower_pow by exact Hr. simpl. ring.
Qed.

(** Inside the disk trigger the gas is always slower than the guard
    [beta^2 < 0.99] asks: there [beta^2 <= 1 / r]. *)
Lemma beta_sq_in_disk (t : R) (p : vec3) :
  in_disk u t p = true -> beta_sq u p < 0.99.
Proof.
  intros Hin. apply in_disk_iff in Hin. destruct Hin as (_ & Hmin & _ & _).
  pose proof (isco_ge_3 u) as Hi. unfold accretion_min in Hmin.
  pose proof (spin_a_bounds u) as Ha.
  set (r := sqrt (dot p p)) in *.
  assert (Hr : 2.7 < r) by lra.
  assert (Hrr : r * r = dot p p).
  { unfold r. apply sqrt_sqrt. unfold dot. nra. }
  pose proof (pow_pos r 1.5 ltac:(lra)) as Hq.
  pose proof (pow_three_halves_sqr r ltac:(lra)) as Hq2.
  unfold beta_sq, vel_gas, omega_kepler. cbv zeta. fold r.
  set (q := pow r 1.5) in *.
  assert (Hw : 0 < 1.0 / (q + spin_a u)).
  { apply Rdiv_lt_0_compat; lra. }
  assert (Hwq : 1.0 / (q + spin_a u) * (q + spin_a u) = 1).
  { unfold Rdiv. rewrite Rmult_assoc, Rinv_l by lra. lra. }
  set (w := 1.0 / (q + spin_a u)) in *.
  assert (Hwa : 0 <= w * spin_a u) by (apply Rmult_le_pos; lra).
  assert (Hwq0 : 0 <= w * q) by (apply Rmult_le_pos; lra).
  assert (Hwq1 : w * q <= 1) by lra.
  assert (Hwq2 : (w * q) * (w * q) <= 1 * 1)
    by (apply Rmult_le_compat; lra).
  assert (Hb : (r * r * (w * w)) * r <= 1).
  { replace (r * r * (w * w) * r) with (w * w * (r * r * r)) by ring.
    rewrite <- Hq2. lra. }
  assert (Hxz : vz p * vz p + vx p * vx p <= r * r).
  { rewrite Hrr. unfold dot. nra. }
  unfold dot, vscale; simpl.
  assert (Hww : 0 <= w * w) by nra.
  assert (Hle : (vz p * vz p + vx p * vx p) * (w * w) <= r * r * (w * w))
    by (apply Rmult_le_compat_r; assumption).
  assert (Hrw : 0 <= r * r * (w * w)) by nra.
  assert (r * r * (w * w) < 0.99) by nra.
  nra.
Qed.

End DiskSample.

Section Background.

Variable u : Uniforms.

Lemma vmix_bounds (a b : vec3) (t : R) :
  vle (splat3 0) a -> vle (splat3 0) b -> 0 <= t <= 1 ->
  vle (splat3 0) (vmix a b t).
Proof.
  unfold vle, vmix, mix, splat3; simpl. intros (?&?&?) (?&?&?) Ht.
  repeat split; nra.
Qed.

(** The sky is never negative in any channel. *)
Lemma background_nonneg (v : vec3) : vle (splat3 0) (background u v).
Proof.
  unfold background. cbv zeta.
  set (uv_sky := mk2 _ _).
  set (warp := fbm (add2 (scale2 uv_sky 3.0) _)).
  set (gd := 1.0 / (1.0 + Rabs _ * 8.0)).
  assert (Hgd : 0 < gd <= 1).
  { unfold gd.
    match goal with
    | |- 0 < 1.0 / (1.0 + Rabs ?e * 8.0) <= 1 =>
        pose proof (Rabs_pos e); set (k := Rabs e) in *
    end.
    split.
    - apply Rdiv_lt_0_compat; lra.
    - apply Rmult_le_reg_r with (1.0 + k * 8.0); [lra |].
      unfold Rdiv. rewrite Rmult_assoc, Rinv_l by lra. lra. }
  match goal with
  | |- vle _ (vadd (splat3 (pow ?a 40.0 * 1.5 + pow ?b 50.0 * 2.0)) _) =>
      pose proof (pow_nonneg a 40.0); pose proof (pow_nonneg b 50.0);
      set (s1 := pow a 40.0) in *; set (s2 := pow b 50.0) in *
  end.
  match goal with
  | |- vle _ (vadd _ (vscale (vscale (vscale ?c ?m) gd) 2.0)) =>
      assert (Hc : vle (splat3 0) c);
      [| assert (Hm : 0 <= m); [| set (col := c) in *; set (mask := m) in *]]
  end.
  - pose proof (fbm_bounds
                  (add2 (mul2 uv_sky (mk2 5.0 2.0)) (splat2 warp))) as Hn.
    pose proof (fbm_bounds
                  (sub2 (mul2 uv_sky (mk2 10.0 5.0))
                        (splat2 (time u * 0.02)))) as Hd.
    apply vmix_bounds.
    + apply vmix_bounds; [| | exact Hn];
        unfold vle, splat3; simpl; lra.
    + unfold vle, splat3; simpl; lra.
    + split; [| assert (gd * gd <= 1) by nra]; nra.
  - pose proof (smoothstep_bounds 0.4 0.7
                  (fbm (add2 (scale2 uv_sky 12.0) (splat2 100.0)))).
    nra.
  - clearbody col mask s1 s2.
    destruct Hc as (Hx & Hy & Hz). unfold splat3 in Hx, Hy, Hz.
    simpl in Hx, Hy, Hz.
    unfold vle, vadd, vscale, splat3; simpl.
    assert (0 <= mask * gd * 2.0) by nra.
    repeat split.
    + assert (0 <= vx col * (mask * gd * 2.0)) by (apply Rmult_le_pos; lra).
      nra.
    + assert (0 <= vy col * (mask * gd * 2.0)) by (apply Rmult_le_pos; lra).
      nra.
    + assert (0 <= vz col * (mask * gd * 2.0)) by (apply Rmult_le_pos; lra).
      nra.
Qed.

(** The background stage can only add to the accumulated colour. *)
Lemma add_background_grows (st : Ray) :
  0 <= transmittance st -> vle (color st) (add_background u st).
Proof.
  intros Ht. unfold add_background.
  destruct (transmittance st >? 0.0); [| apply vle_refl].
  apply vle_vadd_nonneg. apply vscale_nonneg; [| exact Ht].
  apply background_nonneg.
Qed.

End Background.

(** ** Noise: ranges and lattice values *)

Section NoiseRange.

Lemma mix_lt (x y a hi : R) :
  x < hi -> y < hi -> 0 <= a <= 1 -> mix x y a < hi.
Proof.
  intros Hx Hy Ha. unfold mix.
  assert (E : hi - (x * (1 - a) + y * a)
              = (hi - x) * (1 - a) + (hi - y) * a) by ring.
  assert (H1 : 0 <= (hi - x) * (1 - a)) by (apply Rmult_le_pos; lra).
  assert (H2 : 0 <= (hi - y) * a) by (apply Rmult_le_pos; lra).
  destruct (Rle_dec a (1 / 2)).
  - assert ((hi - x) * (1 / 2) <= (hi - x) * (1 - a))
      by (apply Rmult_le_compat_l; lra).
    lra.
  - assert ((hi - y) * (1 / 2) <= (hi - y) * a)
      by (apply Rmult_le_compat_l; lra).
    lra.
Qed.

Lemma hash_lt_1 (p : vec2) : hash p < 1.
Proof.
  unfold hash.
  pose proof (fract_bounds (sin (dot2 p (mk2 12.9898 78.233)) * 43758.5453)).
  lra.
Qed.

Lemma noise_lt_1 (x : vec2) : noise x < 1.
Proof.
  unfold noise. cbv zeta.
  assert (Hu : forall f, 0 <= f < 1 -> 0 <= f * f * (3.0 - f * 2.0) <= 1).
  { intros f Hf. replace (3.0 - f * 2.0) with (3 - 2 * f) by lra.
    apply hermite_bounds. lra. }
  pose proof (Hu _ (fract_bounds (x2 x))).
  pose proof (Hu _ (fract_bounds (y2 x))).
  apply mix_lt; [apply mix_lt | apply mix_lt |];
    try apply hash_lt_1; simpl; assumption.
Qed.

(** The hash and the value noise built on it stay in [[0, 1)]. *)
Theorem hash_noise_range (p : vec2) :
  (0 <= hash p /\ hash p < 1) /\ (0 <= noise p /\ noise p < 1).
Proof.
  pose proof (hash_bounds p). pose proof (hash_lt_1 p).
  pose proof (noise_bounds p). pose proof (noise_lt_1 p).
  repeat split; lra.
Qed.

Lemma floor_IZR (z : Z) : floor (IZR z) = IZR z.
Proof.
  unfold floor. f_equal. symmetry. apply Int_part_spec. lra.
Qed.

Lemma fract_IZR (z : Z) : fract (IZR z) = 0.
Proof. unfold fract. rewrite floor_IZR. ring. Qed.

Lemma noise_lattice (i j : Z) :
  noise (mk2 (IZR i) (IZR j)) = hash (mk2 (IZR i) (IZR j)).
Proof.
  unfold noise. cbv zeta. unfold floor2, fract2, mul2, sub2, scale2, splat2.
  simpl. rewrite !fract_IZR, !floor_IZR.
  replace (0 * 0 * (3.0 - 0 * 2.0)) with 0 by ring.
  unfold mix, add2. simpl.
  replace (IZR i + 0.0) with (IZR i) by lra.
  replace (IZR j + 0.0) with (IZR j) by lra.
  ring.
Qed.

(** At a point with integer coordinates the noise is the hash of the
    point: the interpolation passes through the lattice values. *)
Theorem noise_on_lattice (i j : Z) :
  noise (mk2 (IZR i) (IZR j)) = hash (mk2 (IZR i) (IZR j)).
Proof. exact (noise_lattice i j). Qed.

Lemma fbm_loop_lt (n : nat) (v a : R) (pp : vec2) :
  0 < a -> fbm_loop (S n) v a pp < v + 2 * a * (1 - (1 / 2) ^ S n).
Proof.
  revert v a pp. induction n as [| n IH]; intros v a pp Ha.
  - simpl. pose proof (noise_lt_1 pp).
    assert (a * noise pp < a * 1) by (apply Rmult_lt_compat_l; lra).
    lra.
  - change (fbm_loop (S (S n)) v a pp)
      with (fbm_loop (S n) (v + a * noise pp) (a * 0.5)
                     (add2 (scale2 (rot pp) 2.0) (splat2 100.0))).
    specialize (IH (v + a * noise pp) (a * 0.5)
                   (add2 (scale2 (rot pp) 2.0) (splat2 100.0))
                   ltac:(lra)).
    pose proof (noise_lt_1 pp) as Hn.
    assert (Hp : 0 < (1 / 2) ^ S n) by (apply pow_lt; lra).
    change ((1 / 2) ^ S (S n)) with (1 / 2 * (1 / 2) ^ S n).
    set (q := (1 / 2) ^ S n) in *.
    assert (a * noise pp < a * 1) by (apply Rmult_lt_compat_l; lra).
    nra.
Qed.

(** Five octaves with amplitudes [1/2 .. 1/32]: the fractal sum stays in
    [[0, 31/32)]. *)
Theorem fbm_range (p : vec2) : 0 <= fbm p < 0.96875.
Proof.
  split; [apply fbm_bounds |].
  unfold fbm. pose proof (fbm_loop_lt 4 0.0 0.5 p ltac:(lra)) as H.
  assert (E : 0.0 + 2 * 0.5 * (1 - (1 / 2) ^ 5) = 0.96875) by (simpl; lra).
  rewrite E in H. exact H.
Qed.

End NoiseRange.

(** ** The full-screen quad *)

Section Quad.

Import VertexStage.

(** The six vertices are the corners of the clip square, at depth [0] and
    [w = 1], each with the texture coordinate [(position + 1) / 2], a corner
    of the unit square; no other index has a vertex.  They form two
    counter-clockwise triangles of area [2] which together cover the whole
    square, so that every pixel is shaded. *)
Theorem vs_main_full_screen :
  (forall i, (i < 6)%nat ->
     exists o, vs_main i = Some o
       /\ cb (Position o) = 0 /\ ca (Position o) = 1
       /\ (cr (Position o) = -1 \/ cr (Position o) = 1)
       /\ (cg (Position o) = -1 \/ cg (Position o) = 1)
       /\ x2 (uv o) = (cr (Position o) + 1) / 2
       /\ y2 (uv o) = (cg (Position o) + 1) / 2)
  /\ (forall i, (6 <= i)%nat -> vs_main i = None)
  /\ edge (vertex_xy 0) (vertex_xy 1) (vertex_xy 2) = 4
  /\ edge (vertex_xy 3) (vertex_xy 4) (vertex_xy 5) = 4
  /\ (forall q, -1 <= x2 q <= 1 -> -1 <= y2 q <= 1 ->
        in_triangle (vertex_xy 0) (vertex_xy 1) (vertex_xy 2) q
        \/ in_triangle (vertex_xy 3) (vertex_xy 4) (vertex_xy 5) q).
Proof.
  split; [| split; [| split; [| split]]].
  - intros i Hi.
    do 6 (destruct i as [| i];
          [eexists; split; [reflexivity |]; simpl;
           repeat split; try lra; (left; lra) || (right; lra) |]).
    lia.
  - intros i Hi. unfold vs_main.
    destruct (nth_error positions i) eqn:E; [| reflexivity].
    assert (Hlt : (i < List.length positions)%nat).
    { apply nth_error_Some. congruence. }
    simpl in Hlt. lia.
  - unfold edge, vertex_xy; simpl. lra.
  - unfold edge, vertex_xy; simpl. lra.
  - intros q Hx Hy.
    destruct (Rle_dec (x2 q + y2 q) 0) as [H | H].
    + left. unfold in_triangle, edge, vertex_xy; simpl. repeat split; lra.
    + right. unfold in_triangle, edge, vertex_xy; simpl. repeat split; lra.
Qed.

Lemma vs_main_full_screen_witness :
  in_triangle (vertex_xy 0) (vertex_xy 1) (vertex_xy 2) (mk2 (-0.5) 0.25)
  \/ in_triangle (vertex_xy 3) (vertex_xy 4) (vertex_xy 5) (mk2 (-0.5) 0.25).
Proof.
  destruct vs_main_full_screen as (_ & _ & _ & _ & H).
  apply H; simpl; lra.
Defined.

End Quad.

(** ** Tone mapping *)

Section ToneMapping.

Lemma div_le_cross (n1 d1 n2 d2 : R) :
  0 < d1 -> 0 < d2 -> n1 * d2 <= n2 * d1 -> n1 / d1 <= n2 / d2.
Proof.
  intros H1 H2 H.
  apply Rmult_le_reg_r with (d1 * d2); [apply Rmult_lt_0_compat; lra |].
  replace (n1 / d1 * (d1 * d2)) with (n1 * d2) by (field; lra).
  replace (n2 / d2 * (d1 * d2)) with (n2 * d1) by (field; lra).
  exact H.
Qed.

Lemma uncharted2_eq (x : R) :
  uncharted2 x
  = (15 * (x * x) + 5 * x + 2 / 5) / (15 * (x * x) + 50 * x + 6) - 1 / 15.
Proof.
  unfold uncharted2. cbv zeta.
  destruct (Req_dec (15 * (x * x) + 50 * x + 6) 0) as [Hz | Hz].
  - assert (Hz' : x * (0.15 * x + 0.50) + 0.20 * 0.30 = 0) by lra.
    rewrite Hz, Hz'. unfold Rdiv at 1 3. rewrite Rinv_0. lra.
  - assert (Hz' : x * (0.15 * x + 0.50) + 0.20 * 0.30 <> 0) by lra.
    replace (0.02 / 0.30) with (1 / 15) by lra.
    f_equal.
    apply Rmult_eq_reg_r with (15 * (x * x) + 50 * x + 6); [| exact Hz].
    unfold Rdiv. rewrite !Rmult_assoc, Rinv_l by exact Hz.
    rewrite Rmult_1_r.
    apply Rmult_eq_reg_r with (x * (0.15 * x + 0.50) + 0.20 * 0.30);
      [| exact Hz'].
    rewrite (Rmult_comm (/ _)), !Rmult_assoc, Rinv_l by exact Hz'.
    lra.
Qed.

Lemma uncharted2_zero : uncharted2 0 = 0.
Proof. rewrite uncharted2_eq. lra. Qed.

Lemma uncharted2_mono (a b : R) :
  0 <= a -> a <= b -> uncharted2 a <= uncharted2 b.
Proof.
  intros Ha Hab. rewrite !uncharted2_eq.
  apply Rplus_le_compat_r.
  apply div_le_cross; [nra | nra |].
  assert (E : (15 * (b * b) + 5 * b + 2 / 5) * (15 * (a * a) + 50 * a + 6)
              - (15 * (a * a) + 5 * a + 2 / 5) * (15 * (b * b) + 50 * b + 6)
              = (b - a) * (675 * (a * b) + 84 * (a + b) + 10)) by field.
  assert (0 <= a * b) by (apply Rmult_le_pos; lra).
  assert (0 <= (b - a) * (675 * (a * b) + 84 * (a + b) + 10))
    by (apply Rmult_le_pos; lra).
  lra.
Qed.

Lemma uncharted2_nonneg (x : R) : 0 <= x -> 0 <= uncharted2 x.
Proof.
  intros Hx. rewrite <- uncharted2_zero. apply uncharted2_mono; lra.
Qed.

Lemma white_level : 0.72 < uncharted2 11.2 < 0.73.
Proof.
  rewrite uncharted2_eq.
  replace (15 * (11.2 * 11.2) + 5 * 11.2 + 2 / 5) with 1938 by lra.
  replace (15 * (11.2 * 11.2) + 50 * 11.2 + 6) with 2447.6 by lra.
  lra.
Qed.

Lemma pow_mono (a b y : R) : 0 <= y -> a <= b -> pow a y <= pow b y.
Proof.
  intros Hy Hab. unfold pow.
  destruct (Rlt_dec 0 a) as [Ha | Ha]; destruct (Rlt_dec 0 b) as [Hb | Hb].
  - apply Rle_Rpower_l; lra.
  - lra.
  - left. unfold Rpower. apply exp_pos.
  - lra.
Qed.

Lemma pow_one (y : R) : pow 1 y = 1.
Proof.
  unfold pow. destruct (Rlt_dec 0 1); [| lra].
  unfold Rpower. rewrite ln_1, Rmult_0_r. apply exp_0.
Qed.

Lemma pow_zero (y : R) : pow 0 y = 0.
Proof. unfold pow. destruct (Rlt_dec 0 0); [lra | reflexivity]. Qed.

(** One channel of [tonemap]. *)
Lemma tonemap_channel (c : vec3) :
  tonemap c
  = vmap (fun x => pow (uncharted2 (x * 1.5) / uncharted2 11.2) (1.0 / 2.2)) c.
Proof. reflexivity. Qed.

Lemma tonemap_channel_mono (a b : R) :
  0 <= a -> a <= b ->
  pow (uncharted2 (a * 1.5) / uncharted2 11.2) (1.0 / 2.2)
  <= pow (uncharted2 (b * 1.5) / uncharted2 11.2) (1.0 / 2.2).
Proof.
  intros Ha Hab. pose proof white_level as Hw.
  apply pow_mono; [lra |].
  unfold Rdiv. apply Rmult_le_compat_r.
  - left. apply Rinv_0_lt_compat. lra.
  - apply uncharted2_mono; lra.
Qed.

Lemma tonemap_mono (c1 c2 : vec3) :
  vle (splat3 0) c1 -> vle c1 c2 -> vle (tonemap c1) (tonemap c2).
Proof.
  intros (H1 & H2 & H3) (L1 & L2 & L3). simpl in H1, H2, H3.
  rewrite !tonemap_channel. unfold vle, vmap; simpl.
  repeat split; apply tonemap_channel_mono; assumption.
Qed.

(** The tone mapper is monotone: a colour that is at least as bright in
    every channel maps to a pixel that is at least as bright in every
    channel. *)
Theorem tonemap_monotone (c1 c2 : vec3) :
  vle (splat3 0) c1 -> vle c1 c2 -> vle (tonemap c1) (tonemap c2).
Proof. exact (tonemap_mono c1 c2). Qed.

Lemma tonemap_monotone_witness :
  vle (tonemap (mk3 0.2 0.1 0)) (tonemap (mk3 0.5 0.1 3)).
Proof.
  apply tonemap_monotone; unfold vle, splat3; simpl; lra.
Defined.

(** Non-negative radiance up to the white point [11.2 / 1.5] per channel
    maps into [[0,1]], and the white point itself to exactly [1]. *)
Theorem tonemap_range (c : vec3) :
  vle (splat3 0) c -> vle c (splat3 (11.2 / 1.5)) ->
  vle (splat3 0) (tonemap c) /\ vle (tonemap c) (splat3 1)
  /\ tonemap (splat3 (11.2 / 1.5)) = splat3 1.
Proof.
  intros Hc0 Hc1. pose proof white_level as Hw.
  assert (Hwp : tonemap (splat3 (11.2 / 1.5)) = splat3 1).
  { rewrite tonemap_channel. unfold vmap, splat3; simpl.
    replace (11.2 / 1.5 * 1.5) with 11.2 by lra.
    replace (uncharted2 11.2 / uncharted2 11.2) with 1 by (field; lra).
    rewrite pow_one. reflexivity. }
  split; [| split; [| exact Hwp]].
  - rewrite tonemap_channel. unfold vle, vmap, splat3; simpl.
    repeat split; apply pow_nonneg.
  - rewrite <- Hwp. apply tonemap_mono; assumption.
Qed.

Lemma tonemap_range_witness :
  vle (tonemap (mk3 0.5 0.1 3)) (splat3 1).
Proof.
  apply (tonemap_range (mk3 0.5 0.1 3)); unfold vle, splat3; simpl; lra.
Defined.

End ToneMapping.

(** ** How the loop ends *)

Section Verdict.

Variable u : Uniforms.

Lemma disk_shade_positive (st : Ray) :
  0 < transmittance st -> 0 < snd (disk_shade u st) <= transmittance st.
Proof.
  intros Ht. rewrite disk_shade_eq.
  destruct (contributes u st) eqn:Hc; simpl; [| lra].
  apply contributes_spec in Hc. destruct Hc as [_ Hd].
  pose proof (alpha_bounds u st Hd). split; nra.
Qed.

(** The transmittance a single iteration leaves, by the exit it takes. *)
Lemma march_step_verdict (st : Ray) :
  0 < transmittance st ->
  match march_step u st with
  | (Absorbed, st') => transmittance st' = 0
  | (Opaque, st') => 0 < transmittance st' < 0.01
  | (Marching, st') | (Escaped, st') =>
      0.01 <= transmittance st' <= transmittance st
  | (StepLimit, _) => False
  end.
Proof.
  intros Ht. unfold march_step. cbv zeta.
  destruct (_ <? horizon_r u); [simpl; lra |].
  assert (Hct : 0 < snd (if in_disk u (transmittance st) (pos st)
                         then disk_shade u st
                         else (color st, transmittance st))
                <= transmittance st).
  { destruct (in_disk _ _ _); [apply disk_shade_positive; exact Ht |].
    simpl; lra. }
  destruct (if in_disk u (transmittance st) (pos st)
            then disk_shade u st else (color st, transmittance st))
    as [c t].
  simpl in Hct.
  destruct (t <? 0.01) eqn:Hlt.
  - apply ltb_lt in Hlt. simpl; lra.
  - apply ltb_ge in Hlt. destruct (_ >? 30.0); simpl; lra.
Qed.

Lemma march_loop_verdict (fuel : nat) (st : Ray) :
  0.01 <= transmittance st <= 1 ->
  match march_loop u fuel st with
  | (Absorbed, st') => transmittance st' = 0
  | (Opaque, st') => 0 < transmittance st' < 0.01
  | (Escaped, st') | (StepLimit, st') => 0.01 <= transmittance st' <= 1
  | (Marching, _) => False
  end.
Proof.
  revert st. induction fuel as [| fuel IH]; intros st Hst; simpl; [lra |].
  pose proof (march_step_verdict st ltac:(lra)) as Hs.
  destruct (march_step u st) as [[] st']; try lra; try contradiction.
  apply IH. lra.
Qed.

End Verdict.

(** Every integration ends by one of the four exits, and the exit fixes
    the range of the final transmittance: [0] exactly when the ray was
    absorbed, strictly between [0] and [0.01] exactly when it went opaque,
    at least [0.01] exactly when it escaped or ran out of steps.  So the
    background stage adds the sky, weighted by the transmittance, whenever
    the ray was not absorbed, opaque rays included. *)
Theorem march_verdict (u : Uniforms) (ro rd : vec3) :
  let s := fst (march u (init_ray ro rd)) in
  let st := snd (march u (init_ray ro rd)) in
  s <> Marching
  /\ (s = Absorbed <-> transmittance st = 0)
  /\ (s = Opaque <-> 0 < transmittance st < 0.01)
  /\ (s = Escaped \/ s = StepLimit <-> 0.01 <= transmittance st)
  /\ (s <> Absorbed ->
      add_background u st
      = vadd (color st) (vscale (background u (vel st)) (transmittance st))).
Proof.
  intros s st. subst s st.
  pose proof (march_loop_verdict u max_steps (init_ray ro rd)
                                 ltac:(simpl; lra)) as H.
  fold (march u (init_ray ro rd)) in H.
  destruct (march u (init_ray ro rd)) as [x st']. simpl fst. simpl snd.
  assert (Hbg : 0 < transmittance st' ->
                add_background u st'
                = vadd (color st')
                       (vscale (background u (vel st')) (transmittance st'))).
  { intros Hp. unfold add_background.
    assert (G : (transmittance st' >? 0.0) = true) by (apply gtb_gt; lra).
    rewrite G. reflexivity. }
  destruct x; try contradiction.
  - repeat split; try discriminate; try lra; try congruence.
    intros [E | E]; discriminate.
  - repeat split; try discriminate; try lra; try congruence.
    + intros [E | E]; discriminate.
    + intros _. apply Hbg. lra.
  - repeat split; try discriminate; try lra; try congruence.
    + intros _. left. reflexivity.
    + intros _. apply Hbg. lra.
  - repeat split; try discriminate; try lra; try congruence.
    + intros _. right. reflexivity.
    + intros _. apply Hbg. lra.
Qed.

Lemma march_verdict_witness :
  let u := frame 0 1 (mk3 1 0 0) (mk3 1 0 0) in
  transmittance (snd (march u (init_ray (mk3 1 0 0) (mk3 1 0 0)))) = 0.
Proof.
  intros u.
  destruct (march_verdict u (mk3 1 0 0) (mk3 1 0 0)) as (_ & H & _).
  apply H.
  assert (L : length (mk3 1 0 0) < horizon_r u).
  { pose proof (horizon_r_bounds u). unfold length.
    rewrite length_on_x_axis by lra. lra. }
  destruct (absorbed_march u (mk3 1 0 0) (mk3 1 0 0) L) as [_ E].
  rewrite E. reflexivity.
Defined.

(** ** Rays that start beyond the escape radius *)

Section FarRays.

Lemma vadd_zero_l (b : vec3) : vadd (splat3 0.0) (vscale b 1.0) = b.
Proof. destruct b. unfold vadd, vscale, splat3; simpl. f_equal; lra. Qed.

Lemma far_step (u : Uniforms) (ro rd : vec3) :
  30 < length ro ->
  exists v,
    march_step u (init_ray ro rd)
    = (Escaped, mkRay (vadd ro (vscale v 0.5)) v (splat3 0.0) 1.0 0.5)
    /\ (lensing_enabled u <= 0.5 -> v = rd).
Proof.
  intros H. unfold length in H.
  pose proof (horizon_r_bounds u) as Hh.
  unfold march_step, init_ray. cbv zeta.
  simpl pos. simpl vel. simpl transmittance. simpl color. simpl step_dist.
  set (r := sqrt (dot ro ro)) in *.
  assert (E1 : (r <? horizon_r u) = false) by (apply ltb_ge; lra).
  rewrite E1.
  assert (E2 : in_disk u 1.0 ro = false).
  { unfold in_disk. cbv zeta. fold r.
    assert (E : (r <? accretion_max) = false)
      by (apply ltb_ge; unfold accretion_max; lra).
    rewrite E. rewrite andb_false_r. reflexivity. }
  rewrite E2.
  assert (E3 : (1.0 <? 0.01) = false) by (apply ltb_ge; lra).
  rewrite E3.
  rewrite (clamp_high (0.05 * (r - horizon_r u))) by lra.
  assert (E4 : (r >? 30.0) = true) by (apply gtb_gt; lra).
  rewrite E4.
  eexists. split; [reflexivity |].
  intros Hl.
  assert (L : (lensing_enabled u >? 0.5) = false) by (apply gtb_le; exact Hl).
  rewrite L. reflexivity.
Qed.

(** A camera farther than [30] from the hole sees only sky: every ray
    takes a single step of length [0.5] and leaves through the escape
    [break] with the accumulators untouched, so the radiance of the pixel
    is the background in the direction the ray then has. *)
Theorem far_camera_sees_sky (u : Uniforms) (uv : vec2) :
  30 < length (camera_pos u) ->
  fst (integrate u uv) = Escaped
  /\ step_dist (snd (integrate u uv)) = 0.5
  /\ transmittance (snd (integrate u uv)) = 1
  /\ radiance u uv = background u (vel (snd (integrate u uv)))
  /\ (lensing_enabled u <= 0.5 ->
      vel (snd (integrate u uv)) = ray_direction u uv).
Proof.
  intros H.
  destruct (far_step u (camera_pos u) (ray_direction u uv) H)
    as (v & E & Hv).
  assert (M : integrate u uv
              = (Escaped,
                 mkRay (vadd (camera_pos u) (vscale v 0.5)) v
                       (splat3 0.0) 1.0 0.5)).
  { unfold integrate, march, max_steps, ray_origin.
    change (march_loop u 120 ?st)
      with (match march_step u st with
            | (Marching, st') => march_loop u 119 st'
            | done => done
            end).
    rewrite E. reflexivity. }
  unfold radiance. rewrite M. simpl.
  split; [reflexivity |]. split; [reflexivity |]. split; [lra |].
  split; [| exact Hv].
  unfold add_background. simpl.
  assert (G : (1.0 >? 0.0) = true) by (apply gtb_gt; lra).
  rewrite G. apply vadd_zero_l.
Qed.

Lemma far_camera_sees_sky_witness :
  fst (integrate (frame 0.9 1 (mk3 40 0 0) (mk3 (-1) 0 0)) (mk2 0.5 0.5))
  = Escaped.
Proof.
  apply far_camera_sees_sky.
  unfold length. simpl camera_pos. rewrite length_on_x_axis by lra. lra.
Defined.

End FarRays.

(** ** Step sizes and path length *)

Section PathLength.

Variable u : Uniforms.

(** A step that is taken has a size in [[0.02, 0.5]]; a [break] before the
    step leaves the recorded size alone. *)
Lemma march_step_dist (st : Ray) :
  match march_step u st with
  | (Marching, st') | (Escaped, st') => 0.02 <= step_dist st' <= 0.5
  | (_, st') => step_dist st' = step_dist st
  end.
Proof.
  unfold march_step. cbv zeta.
  destruct (_ <? horizon_r u); [reflexivity |].
  destruct (if in_disk u (transmittance st) (pos st)
            then disk_shade u st else (color st, transmittance st))
    as [c t].
  destruct (t <? 0.01); [reflexivity |].
  pose proof (clamp_bounds
                (0.05 * (sqrt (dot (pos st) (pos st)) - horizon_r u))
                0.02 0.5 ltac:(lra)).
  destruct (_ >? 30.0); simpl; assumption.
Qed.

Lemma path_length_range (n : nat) (st : Ray) :
  0 <= path_length u n st <= 0.5 * INR n.
Proof.
  revert st. induction n as [| n IH]; intros st.
  - simpl. lra.
  - rewrite S_INR. simpl path_length.
    pose proof (march_step_dist st) as Hd. pose proof (pos_INR n) as Hn.
    destruct (march_step u st) as [[] st']; try lra.
    specialize (IH st'). lra.
Qed.


Lemma length_vscale (v : vec3) (k : R) :
  0 <= k -> length (vscale v k) = k * length v.
Proof.
  intros Hk. unfold length.
  replace (dot (vscale v k) (vscale v k)) with (k * k * dot v v)
    by (unfold dot, vscale; simpl; ring).
  rewrite sqrt_mult_alt by nra. rewrite sqrt_square by exact Hk. reflexivity.
Qed.

Lemma vsub_vadd (p w : vec3) : vsub (vadd p w) p = w.
Proof. destruct p, w. unfold vsub, vadd; simpl. f_equal; ring. Qed.

End PathLength.


(** With lensing disabled every ray, from any state, keeps its velocity and
    stays on the straight line through its start; after [n] iterations it
    is no farther from the start than [0.5 n] times its speed. *)
Theorem straight_rays_without_lensing (u : Uniforms) (n : nat) (st : Ray) :
  lensing_enabled u <= 0.5 ->
  vel (after u n st) = vel st
  /\ pos (after u n st)
     = vadd (pos st) (vscale (vel st) (path_length u n st))
  /\ length (vsub (pos (after u n st)) (pos st))
     <= 0.5 * INR n * length (vel st).
Proof.
  intros Hl. destruct (straight_line u Hl n st) as [Hv Hp].
  split; [exact Hv |]. split; [exact Hp |].
  rewrite Hp, vsub_vadd.
  pose proof (path_length_range u n st) as [H0 H1].
  rewrite length_vscale by exact H0.
  apply Rmult_le_compat_r; [apply sqrt_pos | exact H1].
Qed.

Lemma straight_rays_without_lensing_witness :
  let u := frame 0.9 0 (mk3 0 1.5 (-6)) (mk3 0 0 1) in
  vel (after u 120 (init_ray (mk3 0 1.5 (-6)) (mk3 0 0 1))) = mk3 0 0 1.
Proof.
  intros u.
  apply (straight_rays_without_lensing u 120
           (init_ray (mk3 0 1.5 (-6)) (mk3 0 0 1))).
  simpl. lra.
Defined.

(** ** What the pixel does not depend on *)

Section Independence.

(** The camera-up vector of the uniforms is never read: changing it
    changes no pixel. *)
Theorem camera_up_is_ignored (u : Uniforms) (up : vec3) (uv : vec2) :
  fs_main (set_camera_up u up) uv = fs_main u uv.
Proof. apply agree_fs_main; reflexivity. Qed.

(** The lensing input is read only through the test [> 0.5]: two values
    on the same side of [0.5] give the same pixel. *)
Theorem lensing_is_a_threshold (u : Uniforms) (l : R) (uv : vec2) :
  (lensing_enabled u > 0.5 <-> l > 0.5) ->
  fs_main (set_lensing u l) uv = fs_main u uv.
Proof.
  intros H. apply agree_fs_main; try reflexivity.
  simpl. unfold gtb, ltb.
  destruct (Rlt_dec 0.5 l); destruct (Rlt_dec 0.5 (lensing_enabled u));
    try reflexivity; exfalso; intuition lra.
Qed.

Lemma lensing_is_a_threshold_witness :
  fs_main (set_lensing (frame 0.9 1 (mk3 0 1.5 (-6)) (mk3 0 0 1)) 0.7)
          (mk2 0.5 0.5)
  = fs_main (frame 0.9 1 (mk3 0 1.5 (-6)) (mk3 0 0 1)) (mk2 0.5 0.5).
Proof. apply lensing_is_a_threshold. simpl. lra. Defined.

(** Up to [0.99] the spin input renders as its clamp; in particular every
    spin at or below zero renders as spin [0]. *)
Theorem spin_below_clamp_renders_clamped (u : Uniforms) (uv : vec2) :
  spin u <= 0.99 ->
  fs_main u uv = fs_main (set_spin u (clamp (spin u) 0 0.99)) uv
  /\ (spin u <= 0 -> fs_main u uv = fs_main (set_spin u 0) uv).
Proof.
  intros H. pose proof (fs_main_clamped_spin u uv H) as E.
  split; [exact E |].
  intros H0. rewrite E. rewrite clamp_low by lra. reflexivity.
Qed.

Lemma spin_below_clamp_renders_clamped_witness :
  let u := frame (-3) 1 (mk3 0 1.5 (-6)) (mk3 0 0 1) in
  fs_main u (mk2 0.5 0.5) = fs_main (set_spin u 0) (mk2 0.5 0.5).
Proof.
  intros u.
  destruct (spin_below_clamp_renders_clamped u (mk2 0.5 0.5)) as [_ H];
    [simpl; lra |].
  apply H. simpl. lra.
Defined.

End Independence.

(** ** The two forces *)

Section Forces.

Lemma acc_spin_perp (u : Uniforms) (p v : vec3) :
  dot (acc_spin u p v) v = 0.
Proof.
  unfold acc_spin. cbv zeta.
  destruct (spin u >? 0.01).
  - set (c := vdiv _ _). unfold dot, vscale, cross; simpl. ring.
  - unfold dot, splat3; simpl. lra.
Qed.

(** The gravitomagnetic acceleration is perpendicular to the velocity of
    the ray, whatever the spin: it turns the ray and never speeds it up. *)
Theorem spin_force_perpendicular (u : Uniforms) (p v : vec3) :
  dot (acc_spin u p v) v = 0.
Proof. exact (acc_spin_perp u p v). Qed.

(** The Schwarzschild acceleration is central and attractive: parallel to
    the position, never pointing outward, and zero for a ray that moves at
    right angles to its position. *)
Theorem schwarzschild_force_central (p v : vec3) :
  0 < dot p p ->
  cross (acc_schwarzschild p v) p = mk3 0 0 0
  /\ dot (acc_schwarzschild p v) p <= 0
  /\ (dot p v = 0 -> acc_schwarzschild p v = mk3 0 0 0).
Proof.
  intros Hp. unfold acc_schwarzschild. cbv zeta.
  assert (Hr : 0 < sqrt (dot p p)) by (apply sqrt_lt_R0; exact Hp).
  pose proof (pow_pos (sqrt (dot p p)) 5.0 Hr) as HP.
  set (P := pow (sqrt (dot p p)) 5.0) in *.
  assert (Hk : -1.5 * RS * (dot p v * dot p v) / P <= 0).
  { unfold RS, Rdiv.
    assert (0 < / P) by (apply Rinv_0_lt_compat; exact HP).
    assert (0 <= dot p v * dot p v) by nra.
    assert (0 <= dot p v * dot p v * / P) by (apply Rmult_le_pos; lra).
    lra. }
  set (k := -1.5 * RS * (dot p v * dot p v) / P) in *.
  split; [| split].
  - unfold cross, vscale; simpl. f_equal; ring.
  - replace (dot (vscale p k) p) with (k * dot p p)
      by (unfold dot, vscale; simpl; ring).
    nra.
  - intros H0. unfold k. rewrite H0.
    unfold vscale, Rdiv. f_equal; ring.
Qed.

Lemma schwarzschild_force_central_witness :
  dot (acc_schwarzschild (mk3 3 0 0) (mk3 1 0 0)) (mk3 3 0 0) <= 0.
Proof.
  apply (schwarzschild_force_central (mk3 3 0 0) (mk3 1 0 0)).
  unfold dot; simpl. lra.
Defined.

End Forces.

(** ** The disk: extent, kinematics, emission *)

Section Disk.

Variable u : Uniforms.

Lemma accretion_min_range : 4.27 < accretion_min u <= 5.4.
Proof.
  unfold accretion_min, isco. pose proof (spin_a_bounds u) as Ha.
  assert (H1 : 1.749 < sqrt (3.0 * (3.0 - 2.0 * spin_a u))).
  { apply (sqrt_between 1.749 4); lra. }
  assert (H2 : sqrt (3.0 * (3.0 - 2.0 * spin_a u)) <= sqrt (3 * 3)).
  { apply sqrt_le_1_alt. lra. }
  rewrite sqrt_square in H2 by lra. lra.
Qed.

Lemma in_disk_extent (t : R) (p : vec3) :
  in_disk u t p = true ->
  4.27 < sqrt (dot p p) < 12 /\ Rabs (vy p) < 0.194.
Proof.
  pose proof accretion_min_range as Hm.
  intros Hin. apply in_disk_iff in Hin.
  destruct Hin as (_ & H1 & H2 & H3). unfold accretion_max in H2.
  assert (0 <= sqrt (dot p p)) by apply sqrt_pos.
  split; [lra | nra].
Qed.

(** The disk is a thin annulus: its inner radius lies in [(4.27, 5.4]],
    well outside the horizon, and a sample is shaded only at a radius
    between it and [12] and less than [0.194] from the equatorial plane. *)
Theorem disk_extent (t : R) (p : vec3) :
  (horizon_r u <= 2 /\ 4.27 < accretion_min u <= 5.4)
  /\ (in_disk u t p = true ->
      4.27 < sqrt (dot p p) < 12 /\ Rabs (vy p) < 0.194).
Proof.
  pose proof accretion_min_range as Hm. pose proof (horizon_r_bounds u).
  split; [lra | apply in_disk_extent].
Qed.

Lemma beta_sq_times_r (p : vec3) :
  0 < dot p p -> beta_sq u p * sqrt (dot p p) <= 1.
Proof.
  intros Hp. pose proof (spin_a_bounds u) as Ha.
  set (r := sqrt (dot p p)).
  assert (Hr : 0 < r) by (apply sqrt_lt_R0; exact Hp).
  assert (Hrr : r * r = dot p p) by (apply sqrt_sqrt; lra).
  pose proof (pow_pos r 1.5 Hr) as Hq.
  pose proof (pow_three_halves_sqr r Hr) as Hq2.
  unfold beta_sq, vel_gas, omega_kepler. cbv zeta. fold r.
  set (q := pow r 1.5) in *.
  assert (Hw : 0 < 1.0 / (q + spin_a u)).
  { apply Rdiv_lt_0_compat; lra. }
  assert (Hwq : 1.0 / (q + spin_a u) * (q + spin_a u) = 1).
  { unfold Rdiv. rewrite Rmult_assoc, Rinv_l by lra. lra. }
  set (w := 1.0 / (q + spin_a u)) in *.
  assert (Hwa : 0 <= w * spin_a u) by (apply Rmult_le_pos; lra).
  assert (Hwq0 : 0 <= w * q) by (apply Rmult_le_pos; lra).
  assert (Hwq1 : w * q <= 1) by lra.
  assert (Hwq2 : (w * q) * (w * q) <= 1 * 1)
    by (apply Rmult_le_compat; lra).
  assert (Hb : (r * r * (w * w)) * r <= 1).
  { replace (r * r * (w * w) * r) with (w * w * (r * r * r)) by ring.
    rewrite <- Hq2. lra. }
  assert (Hxz : vz p * vz p + vx p * vx p <= r * r).
  { rewrite Hrr. unfold dot. nra. }
  unfold dot, vscale; simpl.
  assert (Hww : 0 <= w * w) by nra.
  assert (Hle : (vz p * vz p + vx p * vx p) * (w * w) <= r * r * (w * w))
    by (apply Rmult_le_compat_r; assumption).
  assert (Hle' : (vz p * vz p + vx p * vx p) * (w * w) * r
                 <= r * r * (w * w) * r)
    by (apply Rmult_le_compat_r; lra).
  replace (- vz p * w * (- vz p * w) + 0.0 * w * (0.0 * w)
           + vx p * w * (vx p * w))
    with ((vz p * vz p + vx p * vx p) * (w * w)) by lra.
  lra.
Qed.

(** The gas is slow wherever the disk is shaded: [beta^2 <= 1 / r], below
    [0.235] inside the trigger.  The guard [beta^2 < 0.99] of the disk body
    therefore always passes there, and a sample contributes exactly when
    its density is above [0.05]. *)
Theorem speed_guard_never_fires (st : Ray) :
  in_disk u (transmittance st) (pos st) = true ->
  beta_sq u (pos st) < 0.235
  /\ contributes u st = (density u (pos st) >? 0.05).
Proof.
  intros Hin.
  destruct (in_disk_extent (transmittance st) (pos st) Hin) as [[Hr _] _].
  set (r := sqrt (dot (pos st) (pos st))) in *.
  assert (Hp : 0 < dot (pos st) (pos st)).
  { destruct (Rle_lt_dec (dot (pos st) (pos st)) 0) as [Hle | Hlt];
      [| exact Hlt].
    unfold r in Hr. rewrite sqrt_neg_0 in Hr by exact Hle. lra. }
  pose proof (beta_sq_times_r (pos st) Hp) as Hb. fold r in Hb.
  assert (H0 : 0 <= beta_sq u (pos st)).
  { unfold beta_sq. cbv zeta. unfold dot. nra. }
  assert (Hlt : beta_sq u (pos st) < 0.235) by nra.
  split; [exact Hlt |].
  unfold contributes.
  assert (E : (beta_sq u (pos st) <? 0.99) = true) by (apply ltb_lt; lra).
  rewrite E. reflexivity.
Qed.

End Disk.

Lemma speed_guard_never_fires_witness :
  let u := frame 0 1 (mk3 0 1.5 (-6)) (mk3 0 0 1) in
  beta_sq u (mk3 5.5 0 0) < 0.235.
Proof.
  intros u.
  apply (speed_guard_never_fires u
           (mkRay (mk3 5.5 0 0) (mk3 0 0 1) (mk3 0 0 0) 1 0.1)).
  apply in_disk_iff. simpl pos. simpl transmittance.
  rewrite length_on_x_axis by lra.
  assert (Hmin : accretion_min u = 5.4).
  { unfold accretion_min, u. rewrite frame_isco_spin0. lra. }
  rewrite Hmin. unfold accretion_max. simpl. rewrite Rabs_R0. lra.
Defined.

Lemma disk_extent_witness :
  let u := frame 0 1 (mk3 0 1.5 (-6)) (mk3 0 0 1) in
  4.27 < sqrt (dot (mk3 5.5 0 0) (mk3 5.5 0 0)) < 12
  /\ Rabs (vy (mk3 5.5 0 0)) < 0.194.
Proof.
  intros u.
  apply (disk_extent u 1 (mk3 5.5 0 0)).
  apply in_disk_iff. rewrite length_on_x_axis by lra.
  assert (Hmin : accretion_min u = 5.4).
  { unfold accretion_min, u. rewrite frame_isco_spin0. lra. }
  rewrite Hmin. unfold accretion_max. simpl. rewrite Rabs_R0. lra.
Defined.

(** ** A disk of zero intensity *)

Section DarkDisk.

Variable u : Uniforms.
Hypothesis dark : disk_intensity u = 0.

Lemma dark_emission (p : vec3) (sh : R) : emission u p sh = mk3 0 0 0.
Proof.
  unfold emission. cbv zeta. rewrite dark.
  unfold vscale; simpl. f_equal; ring.
Qed.

Lemma dark_step (st : Ray) : color (snd (march_step u st)) = color st.
Proof.
  change (color (snd (march_step u st)))
    with (fst (color (snd (march_step u st)),
               transmittance (snd (march_step u st)))).
  rewrite march_step_acc. unfold step_acc.
  destruct (_ <? horizon_r u).
  - simpl. destruct (color st). unfold vadd, vscale, splat3; simpl.
    f_equal; lra.
  - destruct (in_disk _ _ _); [| reflexivity].
    rewrite disk_shade_eq. destruct (contributes u st); [| reflexivity].
    simpl. rewrite dark_emission.
    destruct (color st). unfold vadd, vscale; simpl. f_equal; ring.
Qed.

Lemma dark_after (n : nat) (st : Ray) : color (after u n st) = color st.
Proof.
  induction n as [| n IH]; [reflexivity |].
  destruct (after_S u n st) as [E | E]; rewrite E; [exact IH |].
  rewrite dark_step. exact IH.
Qed.

End DarkDisk.

(** ** The frequency shift *)

Section Shift.

Lemma dot_normalize_range (a b : vec3) :
  0 < dot a a -> 0 < dot b b -> -1 <= dot (normalize a) (normalize b) <= 1.
Proof.
  intros Ha Hb.
  pose proof (normalize_unit a Ha) as Ua.
  pose proof (normalize_unit b Hb) as Ub.
  set (x := normalize a) in *. set (y := normalize b) in *.
  clearbody x y. clear Ha Hb. unfold dot in *.
  pose proof (Rle_0_sqr (vx x - vx y)) as S1.
  pose proof (Rle_0_sqr (vy x - vy y)) as S2.
  pose proof (Rle_0_sqr (vz x - vz y)) as S3.
  pose proof (Rle_0_sqr (vx x + vx y)) as T1.
  pose proof (Rle_0_sqr (vy x + vy y)) as T2.
  pose proof (Rle_0_sqr (vz x + vz y)) as T3.
  unfold Rsqr in *. split; lra.
Qed.

Lemma doppler_mono (b c c' : R) :
  0 <= b < 1 -> -1 <= c -> c <= c' -> c' <= 1 ->
  0 < doppler b c /\ doppler b c <= doppler b c'.
Proof.
  intros Hb Hc Hcc Hc'.
  assert (Hs0 : 0 <= sqrt b) by apply sqrt_pos.
  assert (Hs1 : sqrt b < 1).
  { rewrite <- sqrt_1. apply sqrt_lt_1_alt. lra. }
  assert (Hg : 0 < sqrt (1 - b)) by (apply sqrt_lt_R0; lra).
  assert (D1 : 0 < 1 - sqrt b * c) by nra.
  assert (D2 : 0 < 1 - sqrt b * c') by nra.
  rewrite !doppler_closed_form by (try lra; assumption).
  split.
  - apply Rdiv_lt_0_compat; assumption.
  - apply div_le_cross; try assumption.
    assert (sqrt b * c <= sqrt b * c') by (apply Rmult_le_compat_l; lra).
    apply Rmult_le_compat_l; lra.
Qed.

(** For a moving ray and moving gas the cosine of the viewing angle lies in
    [[-1, 1]], so the Doppler factor of the sample is positive and lies
    between its value for gas receding head-on and its value for gas
    approaching head-on. *)
Theorem doppler_between_extremes (u : Uniforms) (st : Ray) :
  0 < dot (vel st) (vel st) ->
  0 < beta_sq u (pos st) -> beta_sq u (pos st) < 0.99 ->
  -1 <= cos_theta u st <= 1
  /\ 0 < doppler (beta_sq u (pos st)) (cos_theta u st)
  /\ doppler (beta_sq u (pos st)) (-1)
     <= doppler (beta_sq u (pos st)) (cos_theta u st)
     <= doppler (beta_sq u (pos st)) 1.
Proof.
  intros Hv Hb0 Hb1.
  assert (Hc : -1 <= cos_theta u st <= 1).
  { unfold cos_theta. cbv zeta. rewrite dot_vneg_r.
    pose proof (dot_normalize_range (vel_gas u (pos st)) (vel st)
                                    Hb0 Hv).
    lra. }
  split; [exact Hc |].
  assert (L : doppler (beta_sq u (pos st)) (-1)
              <= doppler (beta_sq u (pos st)) (cos_theta u st)).
  { apply doppler_mono; lra. }
  assert (U : 0 < doppler (beta_sq u (pos st)) (cos_theta u st)
              /\ doppler (beta_sq u (pos st)) (cos_theta u st)
                 <= doppler (beta_sq u (pos st)) 1).
  { apply doppler_mono; lra. }
  destruct U as [P U]. repeat split; assumption.
Qed.

Lemma doppler_between_extremes_witness :
  let u := frame 0 1 (mk3 0 1.5 (-6)) (mk3 0 0 1) in
  let st := mkRay (mk3 5.5 0 0) (mk3 0 0 1) (mk3 0 0 0) 1 0.1 in
  -1 <= cos_theta u st <= 1.
Proof.
  intros u st.
  assert (Hp : 0 < dot (pos st) (pos st)) by (unfold dot; simpl; lra).
  pose proof (beta_sq_times_r u (pos st) Hp) as Hb.
  simpl pos in Hb. rewrite length_on_x_axis in Hb by lra.
  assert (H0 : 0 < beta_sq u (mk3 5.5 0 0)).
  { unfold beta_sq, vel_gas. cbv zeta.
    assert (Hw : 0 < omega_kepler u (mk3 5.5 0 0)).
    { unfold omega_kepler. cbv zeta. rewrite length_on_x_axis by lra.
      pose proof (pow_pos 5.5 1.5 ltac:(lra)).
      pose proof (spin_a_bounds u).
      apply Rdiv_lt_0_compat; lra. }
    set (w := omega_kepler u (mk3 5.5 0 0)) in *.
    unfold dot, vscale; simpl. nra. }
  apply (doppler_between_extremes u st).
  - unfold dot; simpl. lra.
  - exact H0.
  - simpl pos. nra.
Defined.

(** The gravitational redshift factor is at least [0.1] at every radius;
    outside [r = 2 / 0.99] it is [sqrt (1 - 2 / r)], below [1] and
    non-decreasing outward. *)
Theorem grav_redshift_range (r r' : R) :
  0.1 <= grav_redshift r
  /\ (0 < r -> grav_redshift r < 1)
  /\ (2 / 0.99 <= r -> grav_redshift r = sqrt (1 - 2 / r))
  /\ (0 < r -> r <= r' -> grav_redshift r <= grav_redshift r').
Proof.
  unfold grav_redshift.
  assert (Inv : forall x, 0 < x -> 0 < 2.0 / x).
  { intros x Hx. apply Rdiv_lt_0_compat; lra. }
  split; [| split; [| split]].
  - assert (L : sqrt (0.1 * 0.1) <= sqrt (Rmax 0.01 (1.0 - 2.0 / r))).
    { apply sqrt_le_1_alt. eapply Rle_trans; [| apply Rmax_l]. lra. }
    rewrite sqrt_square in L by lra. exact L.
  - intros Hr. pose proof (Inv r Hr).
    assert (L : sqrt (Rmax 0.01 (1.0 - 2.0 / r)) < sqrt 1).
    { apply sqrt_lt_1_alt.
      split; [eapply Rle_trans; [| apply Rmax_l]; lra |].
      apply Rmax_lub_lt; lra. }
    rewrite sqrt_1 in L. exact L.
  - intros Hr.
    assert (2.0 / r <= 0.99).
    { apply Rmult_le_reg_r with r; [lra |].
      unfold Rdiv. rewrite Rmult_assoc, Rinv_l by lra.
      assert (2 / 0.99 * 0.99 <= r * 0.99)
        by (apply Rmult_le_compat_r; lra).
      lra. }
    rewrite Rmax_right by lra. f_equal. lra.
  - intros Hr Hrr. apply sqrt_le_1_alt. apply Rle_max_compat_l.
    assert (2.0 / r' <= 2.0 / r).
    { unfold Rdiv. apply Rmult_le_compat_l; [lra |].
      apply Rinv_le_contravar; lra. }
    lra.
Qed.

Lemma grav_redshift_range_witness : grav_redshift 4 <= grav_redshift 10.
Proof.
  destruct (grav_redshift_range 4 10) as (_ & _ & _ & H). apply H; lra.
Defined.

End Shift.

(** ** The application shell: mouse and wheel *)

Section Shell.

Lemma handle_physics (s : App.State) (ev : App.Event) :
  App.spin (App.params (App.handle s ev)) = App.spin (App.params s)
  /\ App.diskIntensity (App.params (App.handle s ev))
     = App.diskIntensity (App.params s)
  /\ App.gravitationalLensing (App.params (App.handle s ev))
     = App.gravitationalLensing (App.params s).
Proof.
  destruct ev; simpl; unfold App.handleMouseMove;
    try destruct (negb (App.isDragging s)); simpl; auto.
Qed.

Lemma handle_ranges (s : App.State) (ev : App.Event) :
  (2.5 <= App.zoom (App.params s) <= 20 ->
   2.5 <= App.zoom (App.params (App.handle s ev)) <= 20)
  /\ (0.1 <= App.cameraHeight (App.params s) <= 3.1 ->
      0.1 <= App.cameraHeight (App.params (App.handle s ev)) <= 3.1).
Proof.
  assert (C : forall lo hi v, lo <= hi -> lo <= Rmax lo (Rmin hi v) <= hi).
  { intros lo hi v H. split; [apply Rmax_l |].
    apply Rmax_lub; [exact H | apply Rmin_l]. }
  destruct ev; simpl; unfold App.handleMouseMove;
    try destruct (negb (App.isDragging s)); simpl; split; intros H;
    try exact H; apply C; lra.
Qed.

Lemma run_preserves (evs : list App.Event) (s : App.State) :
  let p0 := App.params s in
  let p := App.params (App.run evs s) in
  (2.5 <= App.zoom p0 <= 20 -> 2.5 <= App.zoom p <= 20)
  /\ (0.1 <= App.cameraHeight p0 <= 3.1 ->
      0.1 <= App.cameraHeight p <= 3.1)
  /\ App.spin p = App.spin p0
  /\ App.diskIntensity p = App.diskIntensity p0
  /\ App.gravitationalLensing p = App.gravitationalLensing p0.
Proof.
  revert s. induction evs as [| ev evs IH]; intros s; simpl.
  - tauto.
  - destruct (IH (App.handle s ev)) as (Z & H & S & D & L).
    destruct (handle_ranges s ev) as [Z0 H0].
    destruct (handle_physics s ev) as (S0 & D0 & L0).
    unfold App.run in *. simpl in *.
    repeat split; try (intros; apply Z || apply H; auto); congruence.
Qed.

Lemma run_from_initial (evs : list App.Event) :
  let p := App.params (App.run evs App.initial) in
  2.5 <= App.zoom p <= 20
  /\ 0.1 <= App.cameraHeight p <= 3.1
  /\ App.spin p = 0.90 /\ App.diskIntensity p = 1.0
  /\ App.gravitationalLensing p = 1.
Proof.
  intros p. destruct (run_preserves evs App.initial) as (Z & H & S & D & L).
  simpl in Z, H, S, D, L. fold p in Z, H, S, D, L.
  repeat split; try (apply Z; lra); try (apply H; lra); assumption.
Qed.

(** Whatever the user does with the mouse and the wheel, from the initial
    state on: the zoom stays in [[2.5, 20]], the camera height in
    [[0.1, 3.1]], and spin, disk intensity and lensing keep their values. *)
Theorem mouse_and_wheel_invariant (evs : list App.Event) :
  let p := App.params (App.run evs App.initial) in
  2.5 <= App.zoom p <= 20
  /\ 0.1 <= App.cameraHeight p <= 3.1
  /\ App.spin p = 0.90 /\ App.diskIntensity p = 1.0
  /\ App.gravitationalLensing p = 1.
Proof. exact (run_from_initial evs). Qed.

(** Mouse moves without the button held change nothing, neither the
    parameters nor the remembered mouse position. *)
Theorem idle_moves_change_nothing (ps : list App.MousePos) (s : App.State) :
  App.isDragging s = false ->
  App.run (map App.MouseMove ps) s = s.
Proof.
  intros H. induction ps as [| q ps IH]; [reflexivity |].
  unfold App.run in *. simpl. unfold App.handleMouseMove.
  rewrite H. simpl. exact IH.
Qed.

Lemma idle_moves_change_nothing_witness :
  App.run (map App.MouseMove [App.mkPos 10 20; App.mkPos 300 5]) App.initial
  = App.initial.
Proof. apply idle_moves_change_nothing. reflexivity. Defined.

Lemma last_cons_default (A : Type) (l : list A) (a d : A) :
  last (a :: l) d = last l a.
Proof.
  revert a d. induction l as [| b l IH]; intros a d; [reflexivity |].
  change (last (a :: b :: l) d) with (last (b :: l) d).
  rewrite (IH b d), (IH b a). reflexivity.
Qed.

Lemma drag_moves (ps : list App.MousePos) (s : App.State) :
  App.isDragging s = true ->
  let s' := App.run (map App.MouseMove ps) s in
  App.isDragging s' = true
  /\ App.lastMousePos s' = last ps (App.lastMousePos s)
  /\ App.cameraAngle (App.params s')
     = App.cameraAngle (App.params s)
       + 0.005 * (App.x (last ps (App.lastMousePos s))
                  - App.x (App.lastMousePos s))
  /\ App.zoom (App.params s') = App.zoom (App.params s).
Proof.
  revert s. induction ps as [| q ps IH]; intros s H.
  - simpl. repeat split; try assumption; try reflexivity. lra.
  - set (s1 := App.handleMouseMove q s).
    assert (H1 : App.isDragging s1 = true).
    { unfold s1, App.handleMouseMove. rewrite H. reflexivity. }
    assert (L1 : App.lastMousePos s1 = q).
    { unfold s1, App.handleMouseMove. rewrite H. reflexivity. }
    assert (A1 : App.cameraAngle (App.params s1)
                 = App.cameraAngle (App.params s)
                   + (App.x q - App.x (App.lastMousePos s)) * 0.005).
    { unfold s1, App.handleMouseMove. rewrite H. reflexivity. }
    assert (Z1 : App.zoom (App.params s1) = App.zoom (App.params s)).
    { unfold s1, App.handleMouseMove. rewrite H. reflexivity. }
    destruct (IH s1 H1) as (D & L & A & Z).
    change (App.run (map App.MouseMove (q :: ps)) s)
      with (App.run (map App.MouseMove ps) s1).
    pose proof (last_cons_default _ ps q (App.lastMousePos s)) as E.
    cbv zeta. rewrite E. rewrite L1 in L, A.
    repeat split; try assumption.
    + rewrite A, A1. lra.
    + rewrite Z, Z1. reflexivity.
Qed.

(** A drag turns the camera by [0.005] radians per pixel between the point
    where the button went down and the point where the mouse is now, by
    whatever path it got there; the zoom is untouched. *)
Theorem drag_angle_is_path_independent
  (down : App.MousePos) (ps : list App.MousePos) (s : App.State) :
  let s' := App.run (App.MouseDown down :: map App.MouseMove ps) s in
  App.cameraAngle (App.params s')
  = App.cameraAngle (App.params s)
    + 0.005 * (App.x (last ps down) - App.x down)
  /\ App.zoom (App.params s') = App.zoom (App.params s)
  /\ App.lastMousePos s' = last ps down.
Proof.
  intros s'.
  destruct (drag_moves ps (App.handleMouseDown down s) eq_refl)
    as (_ & L & A & Z).
  simpl in L, A, Z. unfold s'.
  change (App.run (App.MouseDown down :: map App.MouseMove ps) s)
    with (App.run (map App.MouseMove ps) (App.handleMouseDown down s)).
  repeat split; assumption.
Qed.

End Shell.

(** ** The control panel and the uniform buffer *)

Section PanelAndBuffer.

Lemma layout_offsets :
  Layout.offsets = [0; 4; 8; 12; 16; 32; 48; 64]%nat
  /\ Layout.structSize Layout.members = 80%nat.
Proof. split; reflexivity. Qed.

(** The shader reads back from the packed buffer exactly what the renderer
    put in: time, the three physics parameters, the resolution, the camera
    position and direction, and the up vector [(0,1,0)].  The offsets the
    renderer writes at are the ones the layout of [struct Uniforms] gives,
    and the buffer has the size of the struct, 80 bytes for 20 floats. *)
Theorem uniform_buffer_round_trip
  (time : R) (p : App.SimulationParams) (res : vec2) :
  frame_uniforms time p res
  = mkUniforms time (App.spin p) (App.diskIntensity p)
               (App.gravitationalLensing p) res
               (Renderer.camPos p) (Renderer.camDir p) (mk3 0 1 0)
  /\ List.length (Renderer.uniformData time p res) = 20%nat
  /\ Layout.structSize Layout.members = Renderer.uniformBufferSize
  /\ Renderer.uniformBufferSize = (4 * 20)%nat.
Proof.
  split; [| repeat split].
  destruct res. reflexivity.
Qed.

(** A click on the lensing toggle writes [0] or [1], leaves every other
    parameter alone, and flips the branch the shader takes on
    [lensing_enabled > 0.5]; two clicks bring back the same image. *)
Theorem lensing_toggle_flips
  (time : R) (p : App.SimulationParams) (res uv : vec2) :
  let q := Panel.toggleLensing p in
  (App.gravitationalLensing q = 0 \/ App.gravitationalLensing q = 1)
  /\ (forall k, k <> Panel.KGravitationalLensing ->
                Panel.get k q = Panel.get k p)
  /\ (lensing_enabled (frame_uniforms time q res) >? 0.5)
     = negb (lensing_enabled (frame_uniforms time p res) >? 0.5)
  /\ fs_main (frame_uniforms time (Panel.toggleLensing q) res) uv
     = fs_main (frame_uniforms time p res) uv.
Proof.
  intros q.
  assert (F : forall p', lensing_enabled (frame_uniforms time p' res)
                         = App.gravitationalLensing p').
  { intros p'. reflexivity. }
  assert (T : forall p', (App.gravitationalLensing (Panel.toggleLensing p')
                          >? 0.5)
                         = negb (App.gravitationalLensing p' >? 0.5)).
  { intros p'. unfold Panel.toggleLensing, Panel.handleChange. simpl.
    destruct (App.gravitationalLensing p' >? 0.5); simpl.
    - apply gtb_le. lra.
    - apply gtb_gt. lra. }
  split; [| split; [| split]].
  - unfold q, Panel.toggleLensing, Panel.handleChange. simpl.
    destruct (App.gravitationalLensing p >? 0.5); [left | right]; reflexivity.
  - intros k Hk. destruct k; try reflexivity. contradiction.
  - rewrite !F. apply T.
  - apply agree_fs_main; try reflexivity.
    rewrite !F. unfold q. rewrite !T. apply negb_involutive.
Qed.

Lemma lensing_toggle_flips_witness :
  Panel.get Panel.KZoom (Panel.toggleLensing (App.params App.initial)) = 6.0.
Proof.
  destruct (lensing_toggle_flips 0 (App.params App.initial) (mk2 800 600)
                                 (mk2 0.5 0.5)) as (_ & H & _).
  rewrite H; [reflexivity | discriminate].
Defined.

End PanelAndBuffer.

(** ** The camera *)

Section Camera.

Lemma PI_lower : 3.13 < PI.
Proof.
  pose proof (PI_2_3_7_ineq 0) as [H _].
  unfold sum_f_R0, tg_alt, PI_2_3_7_tg, Ratan_seq in H. simpl in H.
  lra.
Qed.

Lemma phi_range (p : App.SimulationParams) :
  0.01 <= Renderer.phi p <= PI - 0.01.
Proof.
  unfold Renderer.phi. pose proof PI_lower.
  split; [apply Rmax_l |].
  apply Rmax_lub; [lra | apply Rmin_l].
Qed.

Lemma sin_phi_pos (p : App.SimulationParams) : 0 < sin (Renderer.phi p).
Proof.
  pose proof (phi_range p). apply sin_gt_0; lra.
Qed.

Lemma sin_cos_sqr (a : R) : sin a * sin a + cos a * cos a = 1.
Proof. pose proof (sin2_cos2 a) as H. unfold Rsqr in H. exact H. Qed.

Lemma camPos_sqr (p : App.SimulationParams) :
  dot (Renderer.camPos p) (Renderer.camPos p) = App.zoom p * App.zoom p.
Proof.
  unfold Renderer.camPos, dot. cbv zeta. simpl.
  pose proof (sin_cos_sqr (Renderer.phi p)) as Hp.
  pose proof (sin_cos_sqr (App.cameraAngle p)) as Ht.
  set (sp := sin (Renderer.phi p)) in *. set (cp := cos (Renderer.phi p)) in *.
  set (st := sin (App.cameraAngle p)) in *.
  set (ct := cos (App.cameraAngle p)) in *.
  replace (App.zoom p * sp * ct * (App.zoom p * sp * ct)
           + App.zoom p * cp * (App.zoom p * cp)
           + App.zoom p * sp * st * (App.zoom p * sp * st))
    with (App.zoom p * App.zoom p
          * (sp * sp * (st * st + ct * ct) + cp * cp)) by ring.
  rewrite Ht, Rmult_1_r, Hp. ring.
Qed.

Lemma camDir_eq (p : App.SimulationParams) :
  0 < App.zoom p ->
  Renderer.camDir p
  = mk3 (- (sin (Renderer.phi p) * cos (App.cameraAngle p)))
        (- cos (Renderer.phi p))
        (- (sin (Renderer.phi p) * sin (App.cameraAngle p))).
Proof.
  intros Hz. unfold Renderer.camDir. cbv zeta.
  pose proof (camPos_sqr p) as Hs. unfold dot in Hs. rewrite Hs.
  rewrite sqrt_square by lra.
  unfold Renderer.camPos. cbv zeta. simpl. f_equal; field; lra.
Qed.

(** The camera sits on the sphere of radius [zoom] around the hole and
    looks at its centre along a unit vector; the polar angle is kept
    strictly between the poles. *)
Theorem camera_looks_at_the_hole (p : App.SimulationParams) :
  0 < App.zoom p ->
  length (Renderer.camPos p) = App.zoom p
  /\ dot (Renderer.camDir p) (Renderer.camDir p) = 1
  /\ vadd (Renderer.camPos p) (vscale (Renderer.camDir p) (App.zoom p))
     = mk3 0 0 0
  /\ 0 < Renderer.phi p < PI.
Proof.
  intros Hz.
  pose proof (sin_cos_sqr (Renderer.phi p)) as Hp.
  pose proof (sin_cos_sqr (App.cameraAngle p)) as Ht.
  pose proof (phi_range p) as Hr.
  split; [| split; [| split]].
  - unfold length. rewrite camPos_sqr. apply sqrt_square. lra.
  - rewrite camDir_eq by exact Hz. unfold dot; simpl.
    set (sp := sin (Renderer.phi p)) in *.
    set (cp := cos (Renderer.phi p)) in *.
    set (st := sin (App.cameraAngle p)) in *.
    set (ct := cos (App.cameraAngle p)) in *.
    replace (- (sp * ct) * - (sp * ct) + - cp * - cp
             + - (sp * st) * - (sp * st))
      with (sp * sp * (st * st + ct * ct) + cp * cp) by ring.
    rewrite Ht, Rmult_1_r. exact Hp.
  - rewrite camDir_eq by exact Hz.
    unfold Renderer.camPos, vadd, vscale. cbv zeta. simpl. f_equal; ring.
  - lra.
Qed.

Lemma camera_looks_at_the_hole_witness :
  length (Renderer.camPos (App.params App.initial)) = 6.0.
Proof.
  apply (camera_looks_at_the_hole (App.params App.initial)). simpl. lra.
Defined.

Lemma cross_dot_l (a b : vec3) : dot (cross a b) a = 0.
Proof. unfold dot, cross; simpl. ring. Qed.

Lemma cross_dot_r (a b : vec3) : dot (cross a b) b = 0.
Proof. unfold dot, cross; simpl. ring. Qed.

Lemma cross_sqr (a b : vec3) :
  dot (cross a b) (cross a b) = dot a a * dot b b - dot a b * dot a b.
Proof. unfold dot, cross; simpl. ring. Qed.

Lemma dot_vdiv_l (a b : vec3) (k : R) : dot (vdiv a k) b = dot a b / k.
Proof. unfold dot, vdiv, Rdiv; simpl. ring. Qed.

Lemma dot_comm (a b : vec3) : dot a b = dot b a.
Proof. unfold dot. ring. Qed.

(** The camera basis of [fs_main]. *)
Lemma ray_direction_basis (u : Uniforms) (uv : vec2) :
  let cam_dir := normalize (camera_dir u) in
  let right := normalize (cross cam_dir (mk3 0.0 1.0 0.0)) in
  let up := cross right cam_dir in
  let sx := (x2 uv - 0.5) * 2.0 * (x2 (resolution u) / y2 (resolution u)) in
  let sy := - ((y2 uv - 0.5) * 2.0) in
  ray_direction u uv
  = normalize (vadd (vadd (vscale cam_dir 1.5) (vscale right sx))
                    (vscale up sy)).
Proof. reflexivity. Qed.

Lemma camera_basis (u : Uniforms) (uv : vec2) :
  0 < vx (camera_dir u) * vx (camera_dir u)
      + vz (camera_dir u) * vz (camera_dir u) ->
  let cam_dir := normalize (camera_dir u) in
  let right := normalize (cross cam_dir (mk3 0.0 1.0 0.0)) in
  let up := cross right cam_dir in
  (dot cam_dir cam_dir = 1 /\ dot right right = 1 /\ dot up up = 1)
  /\ (dot right cam_dir = 0 /\ dot up cam_dir = 0 /\ dot up right = 0)
  /\ dot (ray_direction u uv) (ray_direction u uv) = 1.
Proof.
  intros Hxz cam_dir right up.
  assert (Hd : 0 < dot (camera_dir u) (camera_dir u)).
  { unfold dot. nra. }
  assert (U1 : dot cam_dir cam_dir = 1) by (apply normalize_unit; exact Hd).
  assert (Hc : 0 < dot (cross cam_dir (mk3 0.0 1.0 0.0))
                       (cross cam_dir (mk3 0.0 1.0 0.0))).
  { unfold cam_dir, normalize, vdiv, length.
    assert (Hl : 0 < sqrt (dot (camera_dir u) (camera_dir u)))
      by (apply sqrt_lt_R0; exact Hd).
    set (l := sqrt (dot (camera_dir u) (camera_dir u))) in *.
    unfold dot at 1. unfold cross; simpl.
    assert (Hi : 0 < / l) by (apply Rinv_0_lt_compat; exact Hl).
    unfold Rdiv.
    replace ((vy (camera_dir u) * / l * 0.0 - vz (camera_dir u) * / l * 1.0)
             * (vy (camera_dir u) * / l * 0.0
                - vz (camera_dir u) * / l * 1.0)
             + (vz (camera_dir u) * / l * 0.0
                - vx (camera_dir u) * / l * 0.0)
               * (vz (camera_dir u) * / l * 0.0
                  - vx (camera_dir u) * / l * 0.0)
             + (vx (camera_dir u) * / l * 1.0
                - vy (camera_dir u) * / l * 0.0)
               * (vx (camera_dir u) * / l * 1.0
                  - vy (camera_dir u) * / l * 0.0))
      with ((vx (camera_dir u) * vx (camera_dir u)
             + vz (camera_dir u) * vz (camera_dir u)) * (/ l * / l)) by lra.
    apply Rmult_lt_0_compat; [exact Hxz | nra]. }
  assert (U2 : dot right right = 1) by (apply normalize_unit; exact Hc).
  assert (O1 : dot right cam_dir = 0).
  { unfold right, normalize. rewrite dot_vdiv_l, cross_dot_l.
    unfold Rdiv. ring. }
  assert (U3 : dot up up = 1).
  { unfold up. rewrite cross_sqr, U1, U2, O1. ring. }
  assert (O2 : dot up cam_dir = 0) by (apply cross_dot_r).
  assert (O3 : dot up right = 0) by (apply cross_dot_l).
  split; [tauto |]. split; [tauto |].
  rewrite ray_direction_basis. cbv zeta.
  fold cam_dir. fold right. fold up.
  set (sx := (x2 uv - 0.5) * 2.0 * (x2 (resolution u) / y2 (resolution u))).
  set (sy := - ((y2 uv - 0.5) * 2.0)).
  apply normalize_unit.
  set (w := vadd (vadd (vscale cam_dir 1.5) (vscale right sx)) (vscale up sy)).
  assert (E : dot w w
              = 1.5 * 1.5 * dot cam_dir cam_dir + sx * sx * dot right right
                + sy * sy * dot up up
                + 2 * (1.5 * sx) * dot right cam_dir
                + 2 * (1.5 * sy) * dot up cam_dir
                + 2 * (sx * sy) * dot up right).
  { unfold w, dot, vadd, vscale; simpl. ring. }
  rewrite E, U1, U2, U3, O1, O2, O3. nra.
Qed.

(** When the view direction is not vertical the camera basis is
    orthonormal, and every pixel's ray starts with a velocity of length
    [1]. *)
Theorem camera_basis_orthonormal (u : Uniforms) (uv : vec2) :
  0 < vx (camera_dir u) * vx (camera_dir u)
      + vz (camera_dir u) * vz (camera_dir u) ->
  let cam_dir := normalize (camera_dir u) in
  let right := normalize (cross cam_dir (mk3 0.0 1.0 0.0)) in
  let up := cross right cam_dir in
  (dot cam_dir cam_dir = 1 /\ dot right right = 1 /\ dot up up = 1)
  /\ (dot right cam_dir = 0 /\ dot up cam_dir = 0 /\ dot up right = 0)
  /\ dot (ray_direction u uv) (ray_direction u uv) = 1.
Proof. exact (camera_basis u uv). Qed.

Lemma camera_basis_orthonormal_witness :
  dot (ray_direction (frame 0.9 1 (mk3 0 1.5 (-6)) (mk3 0 0 1)) (mk2 0.2 0.9))
      (ray_direction (frame 0.9 1 (mk3 0 1.5 (-6)) (mk3 0 0 1)) (mk2 0.2 0.9))
  = 1.
Proof.
  apply (camera_basis_orthonormal
           (frame 0.9 1 (mk3 0 1.5 (-6)) (mk3 0 0 1)) (mk2 0.2 0.9)).
  simpl. lra.
Defined.

End Camera.

(** ** The camera the renderer hands to the shader *)

Section FrameCamera.

Lemma frame_camera (time : R) (p : App.SimulationParams) (res : vec2) :
  camera_pos (frame_uniforms time p res) = Renderer.camPos p
  /\ camera_dir (frame_uniforms time p res) = Renderer.camDir p.
Proof. split; reflexivity. Qed.

Lemma camDir_horizontal (p : App.SimulationParams) :
  0 < App.zoom p ->
  vx (Renderer.camDir p) * vx (Renderer.camDir p)
  + vz (Renderer.camDir p) * vz (Renderer.camDir p)
  = sin (Renderer.phi p) * sin (Renderer.phi p).
Proof.
  intros Hz. rewrite camDir_eq by exact Hz. simpl.
  pose proof (sin_cos_sqr (App.cameraAngle p)) as Ht.
  set (sp := sin (Renderer.phi p)). set (st := sin (App.cameraAngle p)) in *.
  set (ct := cos (App.cameraAngle p)) in *.
  replace (- (sp * ct) * - (sp * ct) + - (sp * st) * - (sp * st))
    with (sp * sp * (st * st + ct * ct)) by ring.
  rewrite Ht. ring.
Qed.

(** The renderer never hands the shader a vertical view direction: its
    horizontal part has length [sin phi > 0].  So for every frame the
    renderer packs, the cross product with the world up vector that the
    shader normalises is not zero, and every ray starts with unit
    velocity. *)
Theorem renderer_camera_never_vertical
  (time : R) (p : App.SimulationParams) (res uv : vec2) :
  0 < App.zoom p ->
  let u := frame_uniforms time p res in
  0 < dot (cross (camera_dir u) (mk3 0.0 1.0 0.0))
          (cross (camera_dir u) (mk3 0.0 1.0 0.0))
  /\ dot (ray_direction u uv) (ray_direction u uv) = 1.
Proof.
  intros Hz u.
  destruct (frame_camera time p res) as [_ Ed]. fold u in Ed.
  clearbody u.
  pose proof (camDir_horizontal p Hz) as Hh.
  pose proof (sin_phi_pos p) as Hs.
  assert (Hxz : 0 < vx (camera_dir u) * vx (camera_dir u)
                    + vz (camera_dir u) * vz (camera_dir u)).
  { rewrite Ed, Hh. apply Rmult_lt_0_compat; exact Hs. }
  split.
  - unfold dot at 1. unfold cross; simpl.
    replace ((vy (camera_dir u) * 0.0 - vz (camera_dir u) * 1.0)
             * (vy (camera_dir u) * 0.0 - vz (camera_dir u) * 1.0)
             + (vz (camera_dir u) * 0.0 - vx (camera_dir u) * 0.0)
               * (vz (camera_dir u) * 0.0 - vx (camera_dir u) * 0.0)
             + (vx (camera_dir u) * 1.0 - vy (camera_dir u) * 0.0)
               * (vx (camera_dir u) * 1.0 - vy (camera_dir u) * 0.0))
      with (vx (camera_dir u) * vx (camera_dir u)
            + vz (camera_dir u) * vz (camera_dir u)) by lra.
    exact Hxz.
  - apply (camera_basis u uv Hxz).
Qed.

Lemma renderer_camera_never_vertical_witness :
  let u := frame_uniforms 0 (App.params App.initial) (mk2 800 600) in
  dot (ray_direction u (mk2 0.1 0.1)) (ray_direction u (mk2 0.1 0.1)) = 1.
Proof.
  intros u.
  apply (renderer_camera_never_vertical 0 (App.params App.initial)
                                        (mk2 800 600) (mk2 0.1 0.1)).
  simpl. lra.
Defined.

Lemma normalize_of_unit (v : vec3) : dot v v = 1 -> normalize v = v.
Proof.
  intros H. unfold normalize, length. rewrite H, sqrt_1.
  destruct v. unfold vdiv; simpl. f_equal; field.
Qed.

Lemma centre_ray (u : Uniforms) :
  dot (camera_dir u) (camera_dir u) = 1 ->
  ray_direction u (mk2 0.5 0.5) = camera_dir u.
Proof.
  intros H. rewrite ray_direction_basis. cbv zeta.
  rewrite (normalize_of_unit (camera_dir u) H).
  set (right := normalize (cross (camera_dir u) (mk3 0.0 1.0 0.0))).
  simpl x2. simpl y2.
  replace (0.5 - 0.5) with 0 by lra.
  set (a := x2 (resolution u) / y2 (resolution u)).
  assert (W : vadd (vadd (vscale (camera_dir u) 1.5)
                         (vscale right (0 * 2.0 * a)))
                   (vscale (cross right (camera_dir u)) (- (0 * 2.0)))
              = vscale (camera_dir u) 1.5).
  { unfold vadd, vscale; simpl. f_equal; ring. }
  rewrite W. unfold normalize.
  rewrite length_vscale by lra. unfold length. rewrite H, sqrt_1.
  destruct (camera_dir u). unfold vdiv, vscale; simpl.
  replace (1.5 * 1) with (3 / 2) by lra. replace 1.5 with (3 / 2) by lra.
  f_equal; field.
Qed.

(** The ray of the centre pixel is the view direction, and it runs from
    the camera straight through the centre of the hole, which it reaches
    at path length [zoom]. *)
Theorem centre_ray_aims_at_the_hole
  (time : R) (p : App.SimulationParams) (res : vec2) :
  0 < App.zoom p ->
  let u := frame_uniforms time p res in
  ray_direction u (mk2 0.5 0.5) = Renderer.camDir p
  /\ vadd (ray_origin u) (vscale (ray_direction u (mk2 0.5 0.5)) (App.zoom p))
     = mk3 0 0 0.
Proof.
  intros Hz u.
  destruct (frame_camera time p res) as [Ep Ed]. fold u in Ep, Ed.
  clearbody u.
  assert (U : dot (camera_dir u) (camera_dir u) = 1).
  { rewrite Ed, camDir_eq by exact Hz. unfold dot; simpl.
    pose proof (sin_cos_sqr (Renderer.phi p)) as Hp.
    pose proof (sin_cos_sqr (App.cameraAngle p)) as Ht.
    set (sp := sin (Renderer.phi p)) in *.
    set (cp := cos (Renderer.phi p)) in *.
    set (st := sin (App.cameraAngle p)) in *.
    set (ct := cos (App.cameraAngle p)) in *.
    replace (- (sp * ct) * - (sp * ct) + - cp * - cp
             + - (sp * st) * - (sp * st))
      with (sp * sp * (st * st + ct * ct) + cp * cp) by ring.
    rewrite Ht, Rmult_1_r. exact Hp. }
  rewrite (centre_ray u U), Ed. split; [reflexivity |].
  unfold ray_origin. rewrite Ep, camDir_eq by exact Hz.
  unfold Renderer.camPos, vadd, vscale. cbv zeta. simpl. f_equal; ring.
Qed.

Lemma centre_ray_aims_at_the_hole_witness :
  ray_direction (frame_uniforms 0 (App.params App.initial) (mk2 800 600))
                (mk2 0.5 0.5)
  = Renderer.camDir (App.params App.initial).
Proof.
  apply (centre_ray_aims_at_the_hole 0 (App.params App.initial)
                                     (mk2 800 600)).
  simpl. lra.
Defined.

(** Under mouse and wheel control the camera is always outside the
    horizon and inside the escape radius, at a distance in [[2.5, 20]], and
    its height is already inside the range the renderer clamps the polar
    angle to, so that clamp changes nothing. *)
Theorem mouse_camera_stays_in_range
  (evs : list App.Event) (time : R) (res : vec2) :
  let p := App.params (App.run evs App.initial) in
  let u := frame_uniforms time p res in
  Renderer.phi p = App.cameraHeight p
  /\ 2.5 <= length (camera_pos u) <= 20
  /\ horizon_r u < length (camera_pos u)
  /\ length (camera_pos u) < 30.
Proof.
  intros p u.
  destruct (run_from_initial evs) as (Z & H & _). fold p in Z, H.
  pose proof PI_lower as HP.
  assert (L : length (camera_pos u) = App.zoom p).
  { destruct (frame_camera time p res) as [Ep _]. fold u in Ep.
    clearbody u. rewrite Ep. unfold length. rewrite camPos_sqr.
    apply sqrt_square. lra. }
  pose proof (horizon_r_bounds u) as Hh.
  split; [| rewrite L; repeat split; lra].
  unfold Renderer.phi.
  rewrite (Rmin_right (PI - 0.01)) by lra. apply Rmax_right. lra.
Qed.

End FrameCamera.

(** ** The frame counter *)

Section FrameCounter.

Lemma round_near (x : R) : x - 1 / 2 < IZR (Js.round x) <= x + 1 / 2.
Proof.
  unfold Js.round. pose proof (base_Int_part (x + 0.5)) as [H1 H2]. lra.
Qed.

(** The counter reports only once at least 500 ms have passed since the
    last report, and then starts over: the reported frame time is the mean
    over the frames counted, the reported rate is a whole number within
    one half of [1000 / frameTime] and at most twice the number of frames
    counted.  Before that it only counts. *)
Theorem fps_report (now : R) (refs : Renderer.FpsRefs) :
  let count := S (Renderer.frameCount refs) in
  let duration := now - Renderer.lastFpsTime refs in
  (duration < 500 ->
   Renderer.fpsStep now refs
   = (None, Renderer.mkFpsRefs count (Renderer.lastFpsTime refs)))
  /\ (500 <= duration ->
      exists fps frameTime,
        Renderer.fpsStep now refs
        = (Some (fps, frameTime), Renderer.mkFpsRefs 0 now)
        /\ frameTime = duration / INR count
        /\ 0 < frameTime
        /\ Rabs (IZR fps - 1000 / frameTime) <= 1 / 2
        /\ (0 <= fps <= 2 * Z.of_nat count)%Z).
Proof.
  intros count duration. unfold Renderer.fpsStep. cbv zeta.
  fold count. fold duration. split.
  - intros H. unfold Js.geb. destruct (Rle_dec 500 duration); [lra |].
    reflexivity.
  - intros H. unfold Js.geb. destruct (Rle_dec 500 duration); [| lra].
    assert (Hc : 1 <= INR count).
    { unfold count. rewrite S_INR.
      pose proof (pos_INR (Renderer.frameCount refs)).
      lra. }
    set (c := INR count) in *.
    exists (Js.round (c * 1000 / duration)), (duration / c).
    assert (Hft : 0 < duration / c) by (apply Rdiv_lt_0_compat; lra).
    assert (Ex : 1000 / (duration / c) = c * 1000 / duration)
      by (field; lra).
    pose proof (round_near (c * 1000 / duration)) as [Hl Hu].
    assert (Hx0 : 0 <= c * 1000 / duration).
    { apply Rmult_le_pos; [lra |]. left. apply Rinv_0_lt_compat. lra. }
    assert (Hx1 : c * 1000 / duration <= 2 * c).
    { apply Rmult_le_reg_r with duration; [lra |].
      unfold Rdiv. rewrite Rmult_assoc, Rinv_l by lra. nra. }
    split; [reflexivity |]. split; [reflexivity |]. split; [exact Hft |].
    split; [rewrite Ex; apply Rabs_le; lra |].
    split.
    + assert (Hm : -1 < IZR (Js.round (c * 1000 / duration))) by lra.
      assert (Hz : (-1 < Js.round (c * 1000 / duration))%Z)
        by (apply lt_IZR; exact Hm).
      lia.
    + assert (Hz : (Js.round (c * 1000 / duration)
                    < 2 * Z.of_nat count + 1)%Z).
      { apply lt_IZR. rewrite plus_IZR, mult_IZR, <- INR_IZR_INZ.
        fold c. lra. }
      lia.
Qed.

Lemma fps_report_witness :
  exists fps frameTime,
    Renderer.fpsStep 700 (Renderer.mkFpsRefs 41 100)
    = (Some (fps, frameTime), Renderer.mkFpsRefs 0 700)
    /\ frameTime = (700 - 100) / INR 42
    /\ 0 < frameTime
    /\ Rabs (IZR fps - 1000 / frameTime) <= 1 / 2
    /\ (0 <= fps <= 2 * Z.of_nat 42)%Z.
Proof.
  destruct (fps_report 700 (Renderer.mkFpsRefs 41 100)) as [_ H].
  apply H. simpl. lra.
Defined.

End FrameCounter.

(** ** A sample that contributes

    The density at the camera of [disk_frame], evaluated: the coarse
    octave of the noise is sampled at the lattice point [(36,-6)], where
    the hash is above [0.73]. *)

Section ContributingSample.

Lemma INR_fact_S (n : nat) : INR (fact (S n)) = INR (S n) * INR (fact n).
Proof. rewrite fact_simpl, mult_INR. reflexivity. Qed.

Lemma INR_fact_values :
  INR (fact 1) = 1 /\ INR (fact 3) = 6 /\ INR (fact 5) = 120
  /\ INR (fact 7) = 5040 /\ INR (fact 9) = 362880
  /\ INR (fact 11) = 39916800 /\ INR (fact 13) = 6227020800.
Proof.
  assert (F0 : INR (fact 0) = 1) by (simpl; lra).
  assert (F1 : INR (fact 1) = 1) by (rewrite INR_fact_S, F0; simpl; lra).
  assert (F2 : INR (fact 2) = 2) by (rewrite INR_fact_S, F1; simpl; lra).
  assert (F3 : INR (fact 3) = 6) by (rewrite INR_fact_S, F2; simpl; lra).
  assert (F4 : INR (fact 4) = 24) by (rewrite INR_fact_S, F3; simpl; lra).
  assert (F5 : INR (fact 5) = 120) by (rewrite INR_fact_S, F4; simpl; lra).
  assert (F6 : INR (fact 6) = 720) by (rewrite INR_fact_S, F5; simpl; lra).
  assert (F7 : INR (fact 7) = 5040) by (rewrite INR_fact_S, F6; simpl; lra).
  assert (F8 : INR (fact 8) = 40320) by (rewrite INR_fact_S, F7; simpl; lra).
  assert (F9 : INR (fact 9) = 362880)
    by (rewrite INR_fact_S, F8; simpl; lra).
  assert (F10 : INR (fact 10) = 3628800)
    by (rewrite INR_fact_S, F9; simpl; lra).
  assert (F11 : INR (fact 11) = 39916800)
    by (rewrite INR_fact_S, F10; simpl; lra).
  assert (F12 : INR (fact 12) = 479001600)
    by (rewrite INR_fact_S, F11; simpl; lra).
  assert (F13 : INR (fact 13) = 6227020800)
    by (rewrite INR_fact_S, F12; simpl; lra).
  tauto.
Qed.

Lemma sin_sample : 42934.25 < sin 1.7652 * 43758.5453 < 42934.27.
Proof.
  pose proof PI_lower as HP.
  pose proof (sin_bound 1.7652 2 ltac:(lra) ltac:(lra)) as [L U].
  destruct INR_fact_values as (F1 & F3 & F5 & F7 & F9 & F11 & F13).
  unfold sin_approx in L, U.
  change (2 * 2 + 1)%nat with 5%nat in L.
  change (2 * (2 + 1))%nat with 6%nat in U.
  cbn [sum_f_R0] in L, U. unfold sin_term in L, U.
  change (2 * 0 + 1)%nat with 1%nat in L, U.
  change (2 * 1 + 1)%nat with 3%nat in L, U.
  change (2 * 2 + 1)%nat with 5%nat in L, U.
  change (2 * 3 + 1)%nat with 7%nat in L, U.
  change (2 * 4 + 1)%nat with 9%nat in L, U.
  change (2 * 5 + 1)%nat with 11%nat in L, U.
  change (2 * 6 + 1)%nat with 13%nat in U.
  rewrite F1, F3, F5, F7, F9, F11 in L.
  rewrite F1, F3, F5, F7, F9, F11, F13 in U.
  cbn [Rpow_def.pow] in L, U.
  split; lra.
Qed.

Lemma hash_sample : 0.73 < hash (mk2 36 (-6)) < 0.75.
Proof.
  unfold hash, dot2. simpl x2. simpl y2.
  replace (36 * 12.9898 + -6 * 78.233) with (Ropp 1.7652) by lra.
  rewrite sin_neg. pose proof sin_sample as Hs.
  set (y := - sin 1.7652 * 43758.5453).
  assert (Hy : -42934.27 < y < -42934.25) by (unfold y; lra).
  assert (Hf : floor y = IZR (-42935)).
  { unfold floor. f_equal. symmetry. apply Int_part_spec. lra. }
  unfold fract. rewrite Hf. lra.
Qed.

Lemma pow_9_three_halves : pow 9 1.5 = 27.
Proof.
  unfold pow. destruct (Rlt_dec 0 9); [| lra].
  replace 1.5 with (1 + / 2) by lra.
  rewrite Rpower_plus, Rpower_1, Rpower_sqrt by lra.
  replace 9 with (3 * 3) at 2 by lra. rewrite sqrt_square by lra. lra.
Qed.

Lemma isco_without_spin (u : Uniforms) : spin u = 0 -> isco u = 6.
Proof.
  intros H. unfold isco, spin_a. rewrite H.
  rewrite clamp_id by lra.
  replace (3.0 * (3.0 - 2.0 * 0)) with (3 * 3) by lra.
  rewrite sqrt_square by lra. lra.
Qed.

Lemma fbm_first_octave (p : vec2) : 0.5 * noise p <= fbm p.
Proof.
  unfold fbm.
  change (fbm_loop 5 0.0 0.5 p)
    with (fbm_loop 4 (0.0 + 0.5 * noise p) (0.5 * 0.5)
                   (add2 (scale2 (rot p) 2.0) (splat2 100.0))).
  pose proof (fbm_loop_bounds 4 (0.0 + 0.5 * noise p) (0.5 * 0.5)
                (add2 (scale2 (rot p) 2.0) (splat2 100.0)) ltac:(lra)).
  lra.
Qed.

(** At the camera of [disk_frame] the density is far above the threshold
    [0.05], and the position passes the disk trigger. *)
Lemma density_sample (i : R) : 0.25 < density (disk_frame i) (mk3 9 0 0).
Proof.
  unfold density. cbv zeta.
  rewrite length_on_x_axis by lra.
  assert (Hw : omega_kepler (disk_frame i) (mk3 9 0 0) = / 27).
  { unfold omega_kepler. cbv zeta. rewrite length_on_x_axis by lra.
    rewrite pow_9_three_halves. unfold spin_a. simpl spin.
    rewrite clamp_id by lra. lra. }
  rewrite Hw.
  assert (Ha : atan2 (vz (mk3 9 0 0)) (vx (mk3 9 0 0)) = 0).
  { unfold atan2. simpl. destruct (Rlt_dec 0 9); [| lra].
    replace (0 / 9) with 0 by lra. apply atan_0. }
  rewrite Ha.
  assert (Hmin : accretion_min (disk_frame i) = 5.4).
  { unfold accretion_min. rewrite isco_without_spin by reflexivity. lra. }
  rewrite Hmin.
  assert (Hv : smoothstep (disk_h 9) 0.0 (Rabs (vy (mk3 9 0 0))) = 1).
  { simpl vy. rewrite Rabs_R0. unfold smoothstep, disk_h.
    replace ((0 - (0.05 + 0.01 * 9 * 9 * 0.1))
             / (0.0 - (0.05 + 0.01 * 9 * 9 * 0.1))) with 1 by lra.
    rewrite clamp_id by lra. lra. }
  rewrite Hv.
  assert (Hr1 : smoothstep 5.4 (5.4 + 1.0) 9 = 1)
    by (apply smoothstep_above; lra).
  assert (Hr2 : smoothstep accretion_max (accretion_max - 2.0) 9 = 1).
  { unfold smoothstep, accretion_max.
    replace ((9 - 12.0) / (12.0 - 2.0 - 12.0)) with 1.5 by lra.
    rewrite clamp_high by lra. lra. }
  rewrite Hr1, Hr2.
  simpl time.
  assert (Hp : scale2 (mk2 (9 * 2.0) (0 - 8.1 * / 27 * 10.0)) 2.0
               = mk2 (IZR 36) (IZR (-6))).
  { unfold scale2; simpl. f_equal; lra. }
  rewrite Hp.
  pose proof (fbm_first_octave (mk2 (IZR 36) (IZR (-6)))) as Hb.
  rewrite noise_lattice in Hb.
  pose proof hash_sample as Hh.
  match goal with
  | |- _ < (_ * 0.7 + fbm ?q * 0.3) * 1 * (1 * 1) =>
      pose proof (fbm_bounds q) as Hd
  end.
  lra.
Qed.

Lemma in_disk_sample (i t : R) :
  0.01 < t -> in_disk (disk_frame i) t (mk3 9 0 0) = true.
Proof.
  intros Ht. apply in_disk_iff. rewrite length_on_x_axis by lra.
  assert (Hmin : accretion_min (disk_frame i) = 5.4).
  { unfold accretion_min. rewrite isco_without_spin by reflexivity. lra. }
  rewrite Hmin. unfold accretion_max. simpl vy. rewrite Rabs_R0. lra.
Qed.

Lemma contributes_sample (i : R) (st : Ray) :
  pos st = mk3 9 0 0 -> contributes (disk_frame i) st = true.
Proof.
  intros Hp. apply contributes_spec. rewrite Hp.
  pose proof (density_sample i).
  assert (Hq : 0 < dot (mk3 9 0 0) (mk3 9 0 0)) by (unfold dot; simpl; lra).
  pose proof (beta_sq_times_r (disk_frame i) (mk3 9 0 0) Hq) as Hb.
  rewrite length_on_x_axis in Hb by lra.
  assert (H0 : 0 <= beta_sq (disk_frame i) (mk3 9 0 0)).
  { unfold beta_sq. cbv zeta. unfold dot. nra. }
  split; nra.
Qed.

End ContributingSample.

(** ** The velocity stays a unit vector

    With lensing enabled the velocity is renormalised after every step.
    The vector under the normalisation is never zero: along the old
    velocity it keeps a component of at least [0.85]. *)

Section UnitVelocity.

Variable u : Uniforms.

Lemma dot_cauchy_schwarz (a b : vec3) :
  dot a b * dot a b <= dot a a * dot b b.
Proof.
  pose proof (cross_sqr a b) as E.
  assert (0 <= dot (cross a b) (cross a b)) by (unfold dot; nra).
  lra.
Qed.

Lemma pow_5 (r : R) : 0 < r -> pow r 5.0 = r * r * r * r * r.
Proof.
  intros Hr. unfold pow. destruct (Rlt_dec 0 r); [| contradiction].
  replace 5.0 with (INR 5) by (simpl; lra).
  rewrite Rpower_pow by exact Hr. simpl. ring.
Qed.

Lemma lensed_velocity_nonzero (p v : vec3) :
  dot v v = 1 -> 1 < sqrt (dot p p) ->
  let r := sqrt (dot p p) in
  let h := clamp (0.05 * (r - horizon_r u)) 0.02 0.5 in
  let w := vadd v (vscale (vadd (acc_schwarzschild p v) (acc_spin u p v)) h) in
  0 < dot w w.
Proof.
  intros Hv Hr r h w.
  pose proof (horizon_r_bounds u) as Hh.
  assert (Hrr : r * r = dot p p).
  { unfold r. apply sqrt_sqrt. unfold dot. nra. }
  assert (Hh0 : 0.02 <= h <= 0.5) by (apply clamp_bounds; lra).
  assert (Hh1 : h <= 0.05 * r).
  { unfold h, clamp.
    apply Rle_trans with (Rmax (0.05 * (r - horizon_r u)) 0.02).
    - apply Rmin_l.
    - apply Rmax_lub; fold r in Hr; lra. }
  fold r in Hr.
  pose proof (dot_cauchy_schwarz p v) as Hcs. rewrite Hv, <- Hrr in Hcs.
  set (q := dot p v) in *.
  assert (Hq : - r <= q <= r) by (split; nra).
  (* the component of [w] along [v] *)
  assert (E : dot w v
              = 1 + h * (-1.5 * RS * (q * q) / pow r 5.0) * q).
  { unfold w.
    replace (dot (vadd v (vscale (vadd (acc_schwarzschild p v)
                                        (acc_spin u p v)) h)) v)
      with (dot v v + h * (dot (acc_schwarzschild p v) v
                           + dot (acc_spin u p v) v))
      by (unfold dot, vadd, vscale; simpl; ring).
    rewrite acc_spin_perp, Hv.
    unfold acc_schwarzschild. cbv zeta. fold r. fold q.
    replace (dot (vscale p (-1.5 * RS * (q * q) / pow r 5.0)) v)
      with (-1.5 * RS * (q * q) / pow r 5.0 * q)
      by (unfold q, dot, vscale; simpl; ring).
    ring. }
  rewrite pow_5 in E by lra. unfold RS in E.
  set (P := r * r * r * r * r) in *.
  assert (HP : 0 < P) by (unfold P; repeat apply Rmult_lt_0_compat; lra).
  assert (Hq3 : q * q * q <= r * r * r).
  { destruct (Rle_dec q 0) as [Hn | Hn].
    - assert (q * q * q <= 0) by nra.
      assert (0 <= r * r * r) by nra. lra.
    - assert (q * q <= r * r) by nra.
      apply Rmult_le_compat; nra. }
  assert (Hb : 3 * h * (q * q * q) <= 0.15 * P).
  { assert (0 <= r * r * r) by nra.
    destruct (Rle_dec (q * q * q) 0) as [Hn | Hn].
    - assert (3 * h * (q * q * q) <= 0) by nra. nra.
    - assert (3 * h * (q * q * q) <= 3 * (0.05 * r) * (r * r * r)).
      { apply Rmult_le_compat; try nra. }
      assert (r * (r * r * r) <= P) by (unfold P; nra).
      nra. }
  assert (Hwv : 0.85 <= dot w v).
  { rewrite E.
    assert (Hi : 0 < / P) by (apply Rinv_0_lt_compat; exact HP).
    replace (1 + h * (-1.5 * 2.0 * (q * q) / P) * q)
      with (1 - 3 * h * (q * q * q) * / P) by (unfold Rdiv; lra).
    assert (3 * h * (q * q * q) * / P <= 0.15 * P * / P)
      by (apply Rmult_le_compat_r; lra).
    assert (E1 : 0.15 * P * / P = 0.15)
      by (rewrite Rmult_assoc, Rinv_r; lra).
    lra. }
  pose proof (dot_cauchy_schwarz w v) as Hcs2. rewrite Hv in Hcs2.
  nra.
Qed.

Lemma march_step_unit (st : Ray) :
  dot (vel st) (vel st) = 1 ->
  dot (vel (snd (march_step u st))) (vel (snd (march_step u st))) = 1.
Proof.
  intros Hv. unfold march_step. cbv zeta.
  destruct (sqrt (dot (pos st) (pos st)) <? horizon_r u) eqn:Hr;
    [exact Hv |].
  apply ltb_ge in Hr. pose proof (horizon_r_bounds u) as Hh.
  destruct (if in_disk u (transmittance st) (pos st)
            then disk_shade u st else (color st, transmittance st))
    as [c t].
  destruct (t <? 0.01); [exact Hv |].
  assert (Hn : dot (if lensing_enabled u >? 0.5
                    then normalize
                           (vadd (vel st)
                                 (vscale
                                    (vadd (acc_schwarzschild (pos st) (vel st))
                                          (acc_spin u (pos st) (vel st)))
                                    (clamp (0.05 * (sqrt (dot (pos st) (pos st))
                                                    - horizon_r u))
                                           0.02 0.5)))
                    else vel st)
                   (if lensing_enabled u >? 0.5
                    then normalize
                           (vadd (vel st)
                                 (vscale
                                    (vadd (acc_schwarzschild (pos st) (vel st))
                                          (acc_spin u (pos st) (vel st)))
                                    (clamp (0.05 * (sqrt (dot (pos st) (pos st))
                                                    - horizon_r u))
                                           0.02 0.5)))
                    else vel st) = 1).
  { destruct (lensing_enabled u >? 0.5); [| exact Hv].
    apply normalize_unit.
    apply (lensed_velocity_nonzero (pos st) (vel st) Hv). lra. }
  destruct (_ >? 30.0); simpl; exact Hn.
Qed.

Lemma after_unit (n : nat) (st : Ray) :
  dot (vel st) (vel st) = 1 ->
  dot (vel (after u n st)) (vel (after u n st)) = 1.
Proof.
  intros Hv. induction n as [| n IH]; [exact Hv |].
  destruct (after_S u n st) as [E | E]; rewrite E; [exact IH |].
  apply march_step_unit. exact IH.
Qed.

(** Wherever the disk is shaded the gas moves: the velocity the shader
    normalises there is not zero. *)
Lemma gas_moves_in_disk (t : R) (p : vec3) :
  in_disk u t p = true -> 0 < beta_sq u p.
Proof.
  intros Hin. destruct (in_disk_extent u t p Hin) as [[Hr _] Hy].
  assert (Hrr : sqrt (dot p p) * sqrt (dot p p) = dot p p).
  { apply sqrt_sqrt. unfold dot. nra. }
  assert (Hy2 : vy p * vy p < 0.04).
  { destruct (Rabs_def2 _ _ Hy) as [H1 H2]. nra. }
  assert (Hxz : 0 < vz p * vz p + vx p * vx p).
  { assert (Hsq : 4.27 * 4.27 < sqrt (dot p p) * sqrt (dot p p))
      by (apply Rmult_le_0_lt_compat; lra).
    rewrite Hrr in Hsq. unfold dot in Hsq. lra. }
  assert (Hw : 0 < omega_kepler u p).
  { unfold omega_kepler. cbv zeta.
    pose proof (pow_pos (sqrt (dot p p)) 1.5 ltac:(lra)).
    pose proof (spin_a_bounds u). apply Rdiv_lt_0_compat; lra. }
  unfold beta_sq, vel_gas. cbv zeta.
  set (w := omega_kepler u p) in *.
  replace (dot (vscale (mk3 (- vz p) 0.0 (vx p)) w)
               (vscale (mk3 (- vz p) 0.0 (vx p)) w))
    with ((vz p * vz p + vx p * vx p) * (w * w))
    by (unfold dot, vscale; simpl; lra).
  apply Rmult_lt_0_compat; [exact Hxz | nra].
Qed.

End UnitVelocity.

(** ** The pixel of an absorbed ray, and the sign of the radiance *)

Section Pixel.

(** A camera inside the horizon renders every pixel alike, whatever the
    pixel, the time, the view direction and the other inputs: the pixel
    is the tone-mapped value of zero radiance, with alpha [1]. *)
Theorem shadow_pixel_is_uniform (u : Uniforms) (uv : vec2) :
  length (camera_pos u) < horizon_r u ->
  radiance u uv = mk3 0 0 0
  /\ fs_main u uv
     = mk4 (vx (tonemap (mk3 0 0 0))) (vy (tonemap (mk3 0 0 0)))
           (vz (tonemap (mk3 0 0 0))) 1.
Proof.
  intros H.
  destruct (absorbed_march u (camera_pos u) (ray_direction u uv) H)
    as (_ & E).
  assert (R0 : radiance u uv = mk3 0 0 0).
  { unfold radiance, integrate, ray_origin. rewrite E.
    rewrite no_background_when_opaque by reflexivity. reflexivity. }
  split; [exact R0 |].
  unfold fs_main. cbv zeta. rewrite R0. f_equal. lra.
Qed.

Lemma shadow_pixel_is_uniform_witness :
  radiance (frame 0 1 (mk3 1 0 0) (mk3 1 0 0)) (mk2 0.2 0.7) = mk3 0 0 0.
Proof.
  apply shadow_pixel_is_uniform.
  pose proof (horizon_r_bounds (frame 0 1 (mk3 1 0 0) (mk3 1 0 0))).
  unfold length. simpl camera_pos. rewrite length_on_x_axis by lra. lra.
Defined.

(** For a frame with a positive resolution height, a view direction that
    is not vertical and a non-negative disk intensity: every ray starts,
    and after every renormalisation remains, a unit vector, and the
    radiance handed to the tone mapper is non-negative in every channel. *)
Theorem radiance_nonneg (u : Uniforms) (uv : vec2) :
  0 <= disk_intensity u ->
  0 < y2 (resolution u) ->
  0 < vx (camera_dir u) * vx (camera_dir u)
      + vz (camera_dir u) * vz (camera_dir u) ->
  dot (ray_direction u uv) (ray_direction u uv) = 1
  /\ dot (vel (snd (integrate u uv))) (vel (snd (integrate u uv))) = 1
  /\ vle (splat3 0) (radiance u uv).
Proof.
  intros Hi Hres Hxz.
  assert (U0 : dot (ray_direction u uv) (ray_direction u uv) = 1)
    by (apply (camera_basis u uv Hxz)).
  split; [exact U0 |]. split.
  - unfold integrate, march.
    change (snd (march_loop u max_steps ?st)) with (after u max_steps st).
    apply after_unit. exact U0.
  - unfold radiance, integrate, march.
    set (st0 := init_ray (ray_origin u) (ray_direction u uv)).
    assert (Hr : 0 <= transmittance st0 <= 1) by (simpl; lra).
    pose proof (after_color_mono u 0 max_steps st0 Hi Hr ltac:(lia)) as Hc.
    pose proof (after_transmittance_range u max_steps st0 Hr) as Ht.
    unfold after in Hc, Ht.
    eapply vle_trans; [| apply add_background_grows; lra].
    eapply vle_trans; [| exact Hc].
    simpl. unfold vle, splat3; simpl. lra.
Qed.

Lemma radiance_nonneg_witness :
  vle (splat3 0) (radiance (disk_frame 1) (mk2 0.3 0.7)).
Proof. apply radiance_nonneg; simpl; lra. Defined.

End Pixel.

(** With the disk intensity at zero, a positive resolution height and a
    view direction that is not vertical: along every ray the velocity
    stays a unit vector and the gas at a sample in the disk moves, so both
    normalisations of the disk shader are of non-zero vectors; the disk
    emits nothing, the colour accumulated by the integration staying
    [(0,0,0)] for every pixel, also for rays that are shaded in the disk;
    and all the light of the image is sky seen through the disk. *)
Theorem dark_disk_emits_nothing (u : Uniforms) (uv : vec2) :
  disk_intensity u = 0 ->
  0 < y2 (resolution u) ->
  0 < vx (camera_dir u) * vx (camera_dir u)
      + vz (camera_dir u) * vz (camera_dir u) ->
  let st0 := init_ray (ray_origin u) (ray_direction u uv) in
  (forall n,
      dot (vel (after u n st0)) (vel (after u n st0)) = 1
      /\ (in_disk u (transmittance (after u n st0)) (pos (after u n st0))
          = true ->
          0 < beta_sq u (pos (after u n st0))))
  /\ color (snd (integrate u uv)) = mk3 0 0 0
  /\ (fst (integrate u uv) <> Absorbed ->
      radiance u uv
      = vscale (background u (vel (snd (integrate u uv))))
               (transmittance (snd (integrate u uv)))).
Proof.
  intros Hd _ Hxz st0.
  assert (U0 : dot (vel st0) (vel st0) = 1)
    by (apply (camera_basis u uv Hxz)).
  split.
  { intros n. split; [apply after_unit; exact U0 |].
    apply gas_moves_in_disk. }
  assert (C : color (snd (integrate u uv)) = mk3 0 0 0).
  { unfold integrate, march.
    change (snd (march_loop u max_steps ?st)) with (after u max_steps st).
    rewrite dark_after by exact Hd. simpl. unfold splat3. f_equal; lra. }
  split; [exact C |].
  intros Hn. unfold radiance.
  pose proof (march_loop_verdict u max_steps
                (init_ray (ray_origin u) (ray_direction u uv))
                ltac:(simpl; lra)) as H.
  unfold integrate, march in *.
  destruct (march_loop u max_steps
              (init_ray (ray_origin u) (ray_direction u uv))) as [x st'].
  simpl in *.
  assert (Hp : 0 < transmittance st').
  { destruct x; try contradiction; try congruence; lra. }
  unfold add_background.
  assert (G : (transmittance st' >? 0.0) = true) by (apply gtb_gt; lra).
  rewrite G, C.
  destruct (background u (vel st')).
  unfold vadd, vscale; simpl. f_equal; ring.
Qed.

(** The first sample of every ray of [disk_frame 0] lies in the disk and
    has a density above the threshold. *)
Lemma dark_disk_emits_nothing_witness :
  contributes (disk_frame 0)
              (init_ray (ray_origin (disk_frame 0))
                        (ray_direction (disk_frame 0) (mk2 0.5 0.5))) = true
  /\ in_disk (disk_frame 0) 1 (ray_origin (disk_frame 0)) = true
  /\ color (snd (integrate (disk_frame 0) (mk2 0.5 0.5))) = mk3 0 0 0.
Proof.
  split; [apply contributes_sample; reflexivity |].
  split; [apply in_disk_sample; lra |].
  apply (dark_disk_emits_nothing (disk_frame 0) (mk2 0.5 0.5)); simpl; lra.
Defined.


(** ** One iteration of the loop, case by case *)

Section Iteration.

Variable u : Uniforms.

(** While no [break] has been taken, the state after [n + 1] iterations is
    one more [march_step], and the loop ends with the verdict of that
    step. *)
Lemma loop_next (n : nat) (st : Ray) :
  fst (march_loop u n st) = StepLimit ->
  after u (S n) st = snd (march_step u (after u n st))
  /\ fst (march_loop u (S n) st)
     = match fst (march_step u (after u n st)) with
       | Marching => StepLimit
       | s => s
       end.
Proof.
  intros H. unfold after. rewrite march_loop_last.
  destruct (march_loop u n st) as [s st']. simpl in H. subst s. simpl.
  destruct (march_step u st') as [[] st'']; simpl; split; reflexivity.
Qed.

Lemma step_absorbed (st : Ray) :
  length (pos st) < horizon_r u ->
  fst (march_step u st) = Absorbed
  /\ color (snd (march_step u st)) = color st
  /\ transmittance (snd (march_step u st)) = 0.
Proof.
  intros H. unfold length in H.
  assert (E : (sqrt (dot (pos st) (pos st)) <? horizon_r u) = true)
    by (apply ltb_lt; exact H).
  unfold march_step. cbv zeta. rewrite E. simpl.
  repeat split; [| lra].
  destruct (color st); unfold vadd, vscale, splat3; simpl. f_equal; lra.
Qed.

(** A sample that passes the disk test lies outside the horizon, so the
    horizon [break] does not pre-empt it, and the iteration leaves in the
    accumulators what the disk shader returns. *)
Lemma step_in_disk (st : Ray) :
  in_disk u (transmittance st) (pos st) = true ->
  horizon_r u < length (pos st)
  /\ (color (snd (march_step u st)), transmittance (snd (march_step u st)))
     = disk_shade u st.
Proof.
  intros H.
  assert (Hh : horizon_r u < length (pos st)).
  { pose proof (accretion_min_above_horizon u).
    pose proof (proj1 (in_disk_iff _ _ _) H). unfold length. lra. }
  split; [exact Hh |].
  rewrite march_step_acc. unfold step_acc.
  assert (E : (sqrt (dot (pos st) (pos st)) <? horizon_r u) = false)
    by (apply ltb_ge; unfold length in Hh; lra).
  rewrite E, H. reflexivity.
Qed.

(** Outside the horizon, a sample that fails the disk test leaves both
    accumulators as they were. *)
Lemma step_outside (st : Ray) :
  horizon_r u <= length (pos st) ->
  in_disk u (transmittance st) (pos st) = false ->
  color (snd (march_step u st)) = color st
  /\ transmittance (snd (march_step u st)) = transmittance st.
Proof.
  intros Hh H.
  pose proof (march_step_acc u st) as A. unfold step_acc in A.
  assert (E : (sqrt (dot (pos st) (pos st)) <? horizon_r u) = false)
    by (apply ltb_ge; unfold length in Hh; lra).
  rewrite E, H in A. injection A as A1 A2. split; assumption.
Qed.

(** In the disk the guard on the gas speed always passes: the sample
    contributes exactly when its density exceeds [0.05]. *)
Lemma contributes_in_disk (st : Ray) :
  in_disk u (transmittance st) (pos st) = true ->
  contributes u st = (density u (pos st) >? 0.05).
Proof.
  intros H. unfold contributes.
  assert (E : (beta_sq u (pos st) <? 0.99) = true).
  { apply ltb_lt. apply (beta_sq_in_disk u (transmittance st)). exact H. }
  rewrite E. reflexivity.
Qed.

Lemma iteration_acc (st : Ray) :
  (length (pos st) < horizon_r u ->
     fst (march_step u st) = Absorbed
     /\ color (snd (march_step u st)) = color st
     /\ transmittance (snd (march_step u st)) = 0)
  /\ (in_disk u (transmittance st) (pos st) = true ->
      density u (pos st) > 0.05 ->
      0 < alpha u st < 1
      /\ color (snd (march_step u st))
         = vadd (color st)
                (vscale (vscale (emission u (pos st) (shift u st))
                                (alpha u st))
                        (transmittance st))
      /\ transmittance (snd (march_step u st))
         = transmittance st * (1 - alpha u st))
  /\ (horizon_r u <= length (pos st) ->
      in_disk u (transmittance st) (pos st) = false
      \/ density u (pos st) <= 0.05 ->
      color (snd (march_step u st)) = color st
      /\ transmittance (snd (march_step u st)) = transmittance st).
Proof.
  split; [apply step_absorbed |]. split.
  - intros Hin Hd.
    split; [apply alpha_bounds; exact Hd |].
    destruct (step_in_disk st Hin) as [_ P].
    rewrite disk_shade_eq, (contributes_in_disk st Hin) in P.
    assert (E : (density u (pos st) >? 0.05) = true)
      by (apply gtb_gt; exact Hd).
    rewrite E in P. injection P as P1 P2. split; assumption.
  - intros Hh Hor.
    destruct (in_disk u (transmittance st) (pos st)) eqn:Hin.
    + destruct Hor as [Hf | Hd]; [discriminate |].
      destruct (step_in_disk st Hin) as [_ P].
      rewrite disk_shade_eq, (contributes_in_disk st Hin) in P.
      assert (E : (density u (pos st) >? 0.05) = false)
        by (apply gtb_le; exact Hd).
      rewrite E in P. injection P as P1 P2. split; assumption.
    + apply step_outside; assumption.
Qed.

End Iteration.

(** ** Transmittance and colour across the integration *)

Section Integration.

(** C1. The transmittance starts at [1], stays in [[0,1]] and never
    increases from one integration step to a later one; with a
    non-negative disk intensity the accumulated colour never decreases in
    any channel; a disk sample that contributes adds
    [emission * alpha * transmittance] to the colour, with the
    transmittance it had before, and then multiplies the transmittance by
    [1 - alpha], where [0 < alpha < 1].  Iteration by iteration, as long
    as no [break] has been taken: a sample inside the horizon ends the
    loop with the colour kept and the transmittance at [0]; a sample that
    passes the disk test with a density above [0.05] applies exactly that
    update; and any other sample leaves both accumulators unchanged. *)
Theorem transmittance_color_invariant (u : Uniforms) (ro rd : vec3) :
  let st0 := init_ray ro rd in
  transmittance st0 = 1
  /\ (forall n, 0 <= transmittance (after u n st0) <= 1)
  /\ (forall n m, (n <= m)%nat ->
        transmittance (after u m st0) <= transmittance (after u n st0))
  /\ (0 <= disk_intensity u ->
      forall n m, (n <= m)%nat ->
        vle (color (after u n st0)) (color (after u m st0)))
  /\ (forall st,
        disk_shade u st =
        if contributes u st then
          (vadd (color st)
                (vscale (vscale (emission u (pos st) (shift u st))
                                (alpha u st))
                        (transmittance st)),
           transmittance st * (1 - alpha u st))
        else (color st, transmittance st))
  /\ (forall st, contributes u st = true -> 0 < alpha u st < 1)
  /\ (forall n, fst (march_loop u n st0) = StepLimit ->
        let st := after u n st0 in
        let st' := after u (S n) st0 in
        (length (pos st) < horizon_r u ->
           fst (march_loop u (S n) st0) = Absorbed
           /\ color st' = color st /\ transmittance st' = 0)
        /\ (in_disk u (transmittance st) (pos st) = true ->
            density u (pos st) > 0.05 ->
            0 < alpha u st < 1
            /\ color st'
               = vadd (color st)
                      (vscale (vscale (emission u (pos st) (shift u st))
                                      (alpha u st))
                              (transmittance st))
            /\ transmittance st' = transmittance st * (1 - alpha u st))
        /\ (horizon_r u <= length (pos st) ->
            in_disk u (transmittance st) (pos st) = false
            \/ density u (pos st) <= 0.05 ->
            color st' = color st /\ transmittance st' = transmittance st)).
Proof.
  intros st0.
  assert (H0 : transmittance st0 = 1) by (simpl; lra).
  assert (Hr : 0 <= transmittance st0 <= 1) by (rewrite H0; lra).
  split; [exact H0 |].
  split; [intros n; apply after_transmittance_range; exact Hr |].
  split; [intros n m Hnm; apply after_transmittance_mono; assumption |].
  split; [intros Hi n m Hnm; apply after_color_mono; assumption |].
  split; [intros st; apply disk_shade_eq |].
  split.
  { intros st Hc. apply contributes_spec in Hc. apply alpha_bounds. tauto. }
  intros n Hn. cbv zeta.
  destruct (loop_next u n st0 Hn) as [E F].
  destruct (iteration_acc u (after u n st0)) as (A & B & C).
  rewrite E. split; [| split; assumption].
  intros Hlt. destruct (A Hlt) as (A1 & A2 & A3).
  rewrite F, A1. auto.
Qed.

(** The first sample of the ray from [(9,0,0)] in [disk_frame 1] lies in
    the disk with a density above the threshold: the first iteration
    lowers the transmittance. *)
Lemma transmittance_color_invariant_witness :
  let u := disk_frame 1 in
  let st0 := init_ray (mk3 9 0 0) (mk3 0 0 1) in
  0 < alpha u st0 < 1
  /\ transmittance (after u 1 st0) = transmittance st0 * (1 - alpha u st0)
  /\ transmittance (after u 1 st0) < 1
  /\ transmittance (after u 120 st0) <= transmittance (after u 1 st0)
  /\ vle (color (after u 1 st0)) (color (after u 120 st0)).
Proof.
  intros u st0.
  destruct (transmittance_color_invariant u (mk3 9 0 0) (mk3 0 0 1))
    as (H0 & _ & Ht & Hc & _ & _ & Hstep).
  fold st0 in H0, Ht, Hc, Hstep.
  destruct (Hstep 0%nat eq_refl) as (_ & Hd & _).
  change (after u 0 st0) with st0 in Hd.
  assert (Hin : in_disk u (transmittance st0) (pos st0) = true).
  { apply (in_disk_sample 1). rewrite H0. lra. }
  assert (Hden : density u (pos st0) > 0.05).
  { pose proof (density_sample 1) as D. apply Rlt_gt.
    apply Rlt_trans with (2 := D). lra. }
  destruct (Hd Hin Hden) as (Ha & _ & HT).
  split; [exact Ha |]. split; [exact HT |].
  split; [rewrite HT, H0; lra |].
  split; [apply Ht; lia | apply Hc; [simpl; lra | lia]].
Defined.

End Integration.

(** ** The disk trigger inside the loop *)

Section Trigger.

(** C4 as the code has it.  The disk test of an iteration passes exactly
    when the transmittance exceeds [0.01], the radius lies strictly
    between [accretion_min] and [accretion_max] and the height above the
    plane is below [0.05 + 0.001 r^2], with [accretion_min = 0.9 isco] and
    [accretion_max = 12].  In the iteration itself: a sample that passes
    the test lies outside the horizon, so the horizon [break] before the
    test does not pre-empt it, and the accumulators the iteration leaves
    are the ones the disk shader returns; a sample outside the horizon
    that fails the test leaves them unchanged; and a sample inside the
    horizon fails the test and ends the loop. *)
Theorem disk_trigger_strict (u : Uniforms) (t : R) (p : vec3) :
  let r := sqrt (dot p p) in
  (in_disk u t p = true
   <-> t > 0.01 /\ accretion_min u < r /\ r < accretion_max
       /\ Rabs (vy p) < 0.05 + 0.001 * (r * r))
  /\ accretion_min u = 0.9 * isco u
  /\ isco u = 3 + sqrt (3 * (3 - 2 * clamp (spin u) 0 0.99))
  /\ accretion_max = 12
  /\ (forall st, pos st = p -> transmittance st = t ->
        (in_disk u t p = true ->
           horizon_r u < r
           /\ (color (snd (march_step u st)),
               transmittance (snd (march_step u st)))
              = disk_shade u st)
        /\ (in_disk u t p = false -> horizon_r u <= r ->
            color (snd (march_step u st)) = color st
            /\ transmittance (snd (march_step u st)) = t)
        /\ (r < horizon_r u ->
            in_disk u t p = false
            /\ fst (march_step u st) = Absorbed)).
Proof.
  intros r. split; [| split; [| split; [| split]]].
  - apply in_disk_iff.
  - unfold accretion_min. lra.
  - unfold isco, spin_a. replace 0.0 with 0 by lra.
    f_equal; [lra | f_equal; lra].
  - unfold accretion_max. lra.
  - intros st Hp Ht. subst p t. split; [| split].
    + intros Hin. apply (step_in_disk u st Hin).
    + intros Hin Hh. apply step_outside; assumption.
    + intros Hlt. split.
      * destruct (in_disk u (transmittance st) (pos st)) eqn:Hin;
          [| reflexivity].
        destruct (step_in_disk u st Hin) as [Hh _].
        unfold length in Hh. unfold r in Hlt. lra.
      * apply (step_absorbed u st Hlt).
Qed.

(** At the sample [(9,0,0)] of [disk_frame 1] the test passes and the
    shader lowers the transmittance of the iteration. *)
Lemma disk_trigger_strict_witness :
  let u := disk_frame 1 in
  let st := init_ray (mk3 9 0 0) (mk3 0 0 1) in
  in_disk u 1 (mk3 9 0 0) = true
  /\ (color (snd (march_step u st)), transmittance (snd (march_step u st)))
     = disk_shade u st
  /\ transmittance (snd (march_step u st)) < 1.
Proof.
  intros u st.
  assert (Hin : in_disk u 1 (mk3 9 0 0) = true)
    by (apply (in_disk_sample 1); lra).
  destruct (disk_trigger_strict u 1 (mk3 9 0 0)) as (_ & _ & _ & _ & H).
  assert (T1 : transmittance st = 1) by (simpl; lra).
  destruct (H st eq_refl T1) as (Hd & _ & _).
  destruct (Hd Hin) as [_ P].
  split; [exact Hin |]. split; [exact P |].
  rewrite disk_shade_eq in P.
  assert (Hc : contributes u st = true)
    by (apply (contributes_sample 1); reflexivity).
  rewrite Hc in P.
  assert (P2 := f_equal snd P). cbn [snd] in P2. rewrite P2, T1.
  assert (Hden : density u (pos st) > 0.05).
  { pose proof (density_sample 1) as D. apply Rlt_gt.
    apply Rlt_trans with (2 := D). lra. }
  pose proof (alpha_bounds u st Hden). lra.
Defined.

End Trigger.
